(** * IBIS buffer-zone extraction: a shallow embedding of
      [scripts/buffer_zone.py] and of the parts of [scripts/utils.py] it calls.

    Numbers.  The Python code computes on float64.  The embedding computes on
    exact rationals [Q]; a square root that the code takes is kept symbolic
    ([fsqrt]), and a comparison [sqrt d2 <= r] is decided as
    [0 <= r /\ d2 <= r * r].

    Libraries.  What nilearn, pandas and the file system return is not code
    of the repository: it is gathered in the record [World], over which every
    definition is parameterised.  The numpy and scikit-learn operations whose
    meaning the properties rest on (indexing, [nonzero], [mean], [std],
    [max], [min], the radius neighbour graph) and nilearn's [coord_transform]
    are modelled by the definitions of the modules [Np], [Sk] and [Nl]; the
    module [Sim] gives one small world on which the definitions run. *)

From Stdlib Require Import String Ascii Bool Arith Lia ZArith QArith List.
From Stdlib Require Import Permutation Sorted.
Import ListNotations.

Local Open Scope Q_scope.
Local Open Scope nat_scope.
Local Open Scope string_scope.
Local Open Scope list_scope.

(* ================================================================= *)
(** ** Python exceptions and results *)

Module Py.

Inductive exn_class := ValueError | IndexError | TypeError | OSError | OtherError.

(** An exception remembers where it was raised: by a [raise] statement of
    [buffer_zone.py] itself, or inside a call to a library function. *)
Inductive exn :=
| Raised (c : exn_class) (msg : string)
| FromLibrary (fn : string) (c : exn_class) (msg : string).

(** [str(e)], as interpolated by the f-string of the handler. *)
Definition str (e : exn) : string :=
  match e with
  | Raised _ msg => msg
  | FromLibrary _ _ msg => msg
  end.

Inductive result (A : Type) :=
| Ok (a : A)
| Raise (e : exn).
Arguments Ok {A} a.
Arguments Raise {A} e.

Definition bind {A B} (r : result A) (k : A -> result B) : result B :=
  match r with
  | Ok a => k a
  | Raise e => Raise e
  end.

(** What a library call hands back: its value or the class and message of
    the exception it raised. *)
Definition outcome (A : Type) := (exn_class * string + A)%type.

Definition call {A} (fn : string) (o : outcome A) : result A :=
  match o with
  | inl (c, msg) => Raise (FromLibrary fn c msg)
  | inr a => Ok a
  end.

(** [a[i]] on a sequence. *)
Definition getitem {A} (a : list A) (i : nat) : result A :=
  match nth_error a i with
  | Some x => Ok x
  | None => Raise (FromLibrary "numpy" IndexError "index out of bounds")
  end.

(** [radius or default]: a number is falsy when it equals zero. *)
Definition truthy (q : Q) : bool := negb (Qeq_bool q 0).

Definition or_else (x : option Q) (d : Q) : Q :=
  match x with
  | Some q => if truthy q then q else d
  | None => d
  end.

End Py.
Import Py.

Declare Scope py_scope.
Notation "x <- c1 ;; c2" := (bind c1 (fun x => c2))
  (at level 61, c1 at next level, right associativity) : py_scope.
Notation "' p <- c1 ;; c2" := (bind c1 (fun x => let p := x in c2))
  (at level 61, p pattern, c1 at next level, right associativity) : py_scope.
Local Open Scope py_scope.

(* ================================================================= *)
(** ** numpy *)

Module Np.

(** Values of the float columns of the result: a number, the square root
    of a number, or [np.nan]. *)
Inductive npfloat :=
| nan
| fin (q : Q)
| fsqrt (q : Q).

Definition voxel := (nat * nat * nat)%type.
Definition point := (Q * Q * Q)%type.
Definition matrix := list (list Q).

(** What [apply_mask] returns: a vector for a 3-D image, one row per
    volume for a 4-D one. *)
Inductive ndarray :=
| Arr1 (v : list Q)
| Arr2 (m : matrix).

Definition ndim (a : ndarray) : nat :=
  match a with Arr1 _ => 1 | Arr2 _ => 2 end.

(** [a.reshape(1, -1)] *)
Definition reshape_row (a : ndarray) : matrix :=
  match a with
  | Arr1 v => [v]
  | Arr2 m => [concat m]
  end.

(** A boolean volume, as [_load_mask_img] returns it. *)
Record BoolVol := mkBoolVol {
  bv_shape : nat * nat * nat;
  bv_at : nat -> nat -> nat -> bool
}.

Definition at_voxel (m : BoolVol) (v : voxel) : bool :=
  let '(i, j, k) := v in bv_at m i j k.

(** Index triples of a grid in C order (last axis fastest). *)
Definition c_order (shape : nat * nat * nat) : list voxel :=
  let '(nx, ny, nz) := shape in
  flat_map (fun i =>
    flat_map (fun j =>
      map (fun k => (i, j, k)) (seq 0 nz)) (seq 0 ny)) (seq 0 nx).

(** [np.nonzero(mask)] / [np.where(mask != 0)]: one index array per axis. *)
Definition nonzero (m : BoolVol) : list nat * list nat * list nat :=
  let vs := filter (at_voxel m) (c_order (bv_shape m)) in
  (map (fun v => fst (fst v)) vs, map (fun v => snd (fst v)) vs, map snd vs).

(** [np.asarray(t).T.tolist()] and [list(zip( *t))] on a triple of
    equally long arrays: the list of index triples. *)
Definition zip3 {A} (t : list A * list A * list A) : list (A * A * A) :=
  let '(a, b, c) := t in
  map (fun x => (fst x, fst (snd x), snd (snd x))) (combine a (combine b c)).

(** [list(zip( *rows))] on a list of triples: three tuples, or nothing at
    all when there is no row. *)
Definition zip_star {A} (rows : list (A * A * A)) : list (list A) :=
  match rows with
  | [] => []
  | _ => [map (fun r => fst (fst r)) rows;
          map (fun r => snd (fst r)) rows;
          map snd rows]
  end.

Definition Qsum (l : list Q) : Q := fold_right Qplus 0%Q l.

Definition size (l : list Q) : Q := inject_Z (Z.of_nat (length l)).

Definition mean_of (l : list Q) : Q := (Qsum l / size l)%Q.

(** Population variance: squared deviations from the mean, divided by the
    number of values. *)
Definition var_of (l : list Q) : Q :=
  let m := mean_of l in
  mean_of (map (fun x => ((x - m) * (x - m))%Q) l).

(** [np.mean]: nan (with a warning) on an empty array. *)
Definition mean (l : list Q) : npfloat :=
  match l with
  | [] => nan
  | _ => fin (mean_of l)
  end.

(** [np.std] with its default [ddof=0]. *)
Definition std (l : list Q) : npfloat :=
  match l with
  | [] => nan
  | _ => fsqrt (var_of l)
  end.

Definition Qmaxb (a b : Q) : Q := if Qle_bool a b then b else a.
Definition Qminb (a b : Q) : Q := if Qle_bool a b then a else b.

(** [np.max] / [np.min]: no identity on an empty array. *)
Definition max (l : list Q) : result npfloat :=
  match l with
  | [] => Raise (FromLibrary "numpy" ValueError
                   "zero-size array to reduction operation maximum which has no identity")
  | x :: t => Ok (fin (fold_left Qmaxb t x))
  end.

Definition min (l : list Q) : result npfloat :=
  match l with
  | [] => Raise (FromLibrary "numpy" ValueError
                   "zero-size array to reduction operation minimum which has no identity")
  | x :: t => Ok (fin (fold_left Qminb t x))
  end.

(** [row[cols]] with an index array. *)
Fixpoint take (row : list Q) (cols : list nat) : result (list Q) :=
  match cols with
  | [] => Ok []
  | c :: cs =>
      x <- getitem row c ;;
      xs <- take row cs ;;
      Ok (x :: xs)
  end.

(** [X[:, cols]] *)
Fixpoint take_columns (X : matrix) (cols : list nat) : result matrix :=
  match X with
  | [] => Ok []
  | row :: rest =>
      r <- take row cols ;;
      rs <- take_columns rest cols ;;
      Ok (r :: rs)
  end.

(** Integer index to coordinate. *)
Definition n2q (n : nat) : Q := inject_Z (Z.of_nat n).

End Np.
Import Np.

(* ================================================================= *)
(** ** scikit-learn and scipy.sparse *)

Module Sk.

Definition sqdist (p s : point) : Q :=
  let '(px, py, pz) := p in
  let '(sx, sy, sz) := s in
  ((px - sx) * (px - sx) + (py - sy) * (py - sy) + (pz - sz) * (pz - sz))%Q.

(** Euclidean distance from [s] to [p] at most [radius]. *)
Definition within (radius : Q) (s p : point) : bool :=
  Qle_bool 0 radius && Qle_bool (sqdist p s) (radius * radius).

(** [NearestNeighbors(radius=radius)] once fitted. *)
Record NearestNeighbors := mkNN {
  nn_radius : Q;
  nn_fit_X : list point
}.

(** [clf.fit(X)]: the input check refuses an array without samples. *)
Definition fit (radius : Q) (X : list point) : result NearestNeighbors :=
  match X with
  | [] => Raise (FromLibrary "sklearn" ValueError
                   "Found array with 0 sample(s) while a minimum of 1 is required")
  | _ => Ok (mkNN radius X)
  end.

(** Positions, from [i] on, of the elements that satisfy [f]. *)
Fixpoint find_all {A} (f : A -> bool) (l : list A) (i : nat) : list nat :=
  match l with
  | [] => []
  | x :: t => if f x then i :: find_all f t (S i) else find_all f t (S i)
  end.

(** A sparse matrix in CSR form: per row, the stored (column, value)
    entries. *)
Definition csr := list (list (nat * Q)).

(** One row of the connectivity graph: a stored 1 at every fitted point
    within the radius of the query point. *)
Definition graph_row (clf : NearestNeighbors) (s : point) : list (nat * Q) :=
  map (fun j => (j, 1%Q)) (find_all (within (nn_radius clf) s) (nn_fit_X clf) 0).

(** [clf.radius_neighbors_graph(seeds)] in its default connectivity mode;
    the same input check as [fit] refuses an empty query. *)
Definition radius_neighbors_graph (clf : NearestNeighbors) (seeds : list point)
  : result csr :=
  match seeds with
  | [] => Raise (FromLibrary "sklearn" ValueError
                   "Found array with 0 sample(s) while a minimum of 1 is required")
  | _ => Ok (map (graph_row clf) seeds)
  end.

(** [A[i]] *)
Definition getrow (A : csr) (i : nat) : result (list (nat * Q)) :=
  match nth_error A i with
  | Some r => Ok r
  | None => Raise (FromLibrary "scipy" IndexError "row index out of range")
  end.

(** [row.nonzero()[1]]: the columns whose stored value is not zero. *)
Definition nonzero_cols (row : list (nat * Q)) : list nat :=
  map fst (filter (fun e => negb (Qeq_bool (snd e) 0)) row).

End Sk.
Import Sk.

(* ================================================================= *)
(** ** nilearn *)

Module Nl.

Definition row4 := (Q * Q * Q * Q)%type.

(** The three rows of a voxel-to-world affine that [coord_transform]
    reads (the fourth row of the 4x4 matrix takes no part). *)
Record Affine := mkAffine {
  ax : row4;
  ay : row4;
  az : row4
}.

Definition apply_row (r : row4) (x y z : Q) : Q :=
  let '(a, b, c, d) := r in (a * x + b * y + c * z + d)%Q.

Definition to_world (a : Affine) (x y z : Q) : point :=
  (apply_row (ax a) x y z, apply_row (ay a) x y z, apply_row (az a) x y z).

(** [image.resampling.coord_transform(x, y, z, affine)] on three
    coordinate arrays. *)
Definition coord_transform (x y z : list Q) (a : Affine)
  : list Q * list Q * list Q :=
  let cols := combine x (combine y z) in
  (map (fun c => apply_row (ax a) (fst c) (fst (snd c)) (snd (snd c))) cols,
   map (fun c => apply_row (ay a) (fst c) (fst (snd c)) (snd (snd c))) cols,
   map (fun c => apply_row (az a) (fst c) (fst (snd c)) (snd (snd c))) cols).

(** An image: its affine, its shape and its data by index vector. *)
Record Niimg := mkNiimg {
  affine : Affine;
  shape : list nat;
  get_data : list nat -> Q
}.

End Nl.
Import Nl.

(* ================================================================= *)
(** ** pandas *)

Module Pd.

(** A table read by [pd.read_csv]: column labels and numeric rows. *)
Record DataFrame := mkDataFrame {
  columns : list string;
  values : list (list Q)
}.

Definition has_column (df : DataFrame) (c : string) : bool :=
  existsb (String.eqb c) (columns df).

Fixpoint index_of (c : string) (cols : list string) : nat :=
  match cols with
  | [] => 0
  | c' :: t => if String.eqb c c' then 0 else S (index_of c t)
  end.

Definition cell (df : DataFrame) (row : list Q) (c : string) : Q :=
  nth (index_of c (columns df)) row 0%Q.

(** [df[['X', 'Y', 'Z']].values] *)
Definition xyz_values (df : DataFrame) : list point :=
  map (fun row => (cell df row "X", cell df row "Y", cell df row "Z")) (values df).

End Pd.
Import Pd.

(* ================================================================= *)
(** ** The outside world *)

(** Content of [config/buffer_zone_config.yaml]: the key
    [buffer_zone.radius_options], a list of numbers or nulls. *)
Record BzYamlSection := mkBzYamlSection {
  yaml_radius_options : option (list (option Q))
}.

Record BzYaml := mkBzYaml {
  yaml_buffer_zone : option BzYamlSection
}.

Record World := mkWorld {
  os_path_exists : string -> bool;
  os_path_isfile : string -> bool;
  os_listdir : string -> list string;
  yaml_safe_load : string -> outcome BzYaml;
  pd_read_csv : string -> outcome DataFrame;
  image_load_img : string -> outcome Niimg;
  masking_load_mask_img : option Niimg -> outcome (BoolVol * Affine);
  check_niimg_3d : Niimg -> outcome Niimg;
  image_resample_img : Niimg -> Affine -> list nat -> outcome Niimg;
  masking_apply_mask : Niimg -> Niimg -> outcome ndarray
}.

(* ================================================================= *)
(** ** [scripts/utils.py] *)

Module Utils.

Definition startswith (s pre : string) : bool := String.prefix pre s.

Definition endswith (s suffix : string) : bool :=
  let n := String.length s in
  let m := String.length suffix in
  (m <=? n)%nat && String.eqb (substring (n - m) m s) suffix.

(** [os.path.join(a, b)] on POSIX paths. *)
Definition path_join (a b : string) : string :=
  if startswith b "/" then b
  else if String.eqb a "" || endswith a "/" then (a ++ b)%string
  else (a ++ "/" ++ b)%string.

Fixpoint basename_from (acc p : string) : string :=
  match p with
  | EmptyString => acc
  | String c rest =>
      if Ascii.eqb c "/" then basename_from "" rest
      else basename_from (acc ++ String c "")%string rest
  end.

(** [os.path.basename(p)]: what follows the last slash. *)
Definition basename (p : string) : string := basename_from "" p.

Fixpoint insert_sorted (s : string) (l : list string) : list string :=
  match l with
  | [] => [s]
  | h :: t => if String.leb s h then s :: l else h :: insert_sorted s t
  end.

(** [sorted(files)] on a list of strings. *)
Definition sorted (l : list string) : list string :=
  fold_right insert_sorted [] l.

Section WithWorld.
Variable w : World.

(** [get_file_list(directory, file_patterns)]: the regular files of the
    directory whose name ends with one of the patterns, sorted. *)
Definition get_file_list (directory : string) (file_patterns : option (list string))
  : list string :=
  if negb (os_path_exists w directory) then []
  else
    sorted
      (flat_map
         (fun file =>
            let file_path := path_join directory file in
            if os_path_isfile w file_path then
              match file_patterns with
              | None => [file_path]
              | Some patterns =>
                  if existsb (endswith file) patterns then [file_path] else []
              end
            else [])
         (os_listdir w directory)).
End WithWorld.

Definition is_digit (c : ascii) : bool :=
  (48 <=? nat_of_ascii c)%nat && (nat_of_ascii c <=? 57)%nat.

Definition digits4 (s : string) : bool :=
  match s with
  | String a (String b (String c (String d _))) =>
      is_digit a && is_digit b && is_digit c && is_digit d
  | _ => false
  end.

(** [extract_subject_id(filename, r'(\d{4})')]: the leftmost run of four
    digits ([re.search]), or [None]. *)
Fixpoint extract_subject_id (filename : string) : option string :=
  match filename with
  | EmptyString => None
  | String _ rest =>
      if digits4 filename then Some (substring 0 4 filename)
      else extract_subject_id rest
  end.

End Utils.
Import Utils.

(* ================================================================= *)
(** ** [scripts/buffer_zone.py] *)

(** The pipeline configuration: [config['paths']] and the optional section
    [config['buffer_zone']] with its optional keys. *)
Record BzSettings := mkBzSettings {
  get_default_radius : option Q;
  get_allow_overlap : option bool
}.

Record Config := mkConfig {
  paths_input_dir : string;
  paths_output_dir : string;
  get_buffer_zone : option BzSettings
}.

(** One dictionary appended to [results]. *)
Module Row.
Record t := mk {
  seed_id : nat;
  x : Q;
  y : Q;
  z : Q;
  radius_mm : Q;
  voxel_count : nat;
  mean_value : npfloat;
  std_value : npfloat;
  max_value : npfloat;
  min_value : npfloat
}.
End Row.

(** A row of the final table: the row of a subject's frame and the column
    [subject_id] assigned to the frame. *)
Record OutRow := mkOutRow {
  base : Row.t;
  subject_id : string
}.

Record BufferZoneAnalyzer := mkAnalyzer {
  config : Config;
  bz_config : BzYaml;
  input_dir : string;
  output_dir : string;
  coordinates_dir : string;
  images_dir : string;
  bz_settings : BzSettings;
  default_radius : Q;
  allow_overlap : bool
}.

Definition no_input_msg : string := "Either niimg or mask_img must be provided".

Section Analyzer.
Variable w : World.

Definition _load_bz_config : BzYaml :=
  let path := path_join "config" "buffer_zone_config.yaml" in
  if os_path_exists w path then
    match yaml_safe_load w path with
    | inr y => y
    | inl _ => mkBzYaml None
    end
  else mkBzYaml None.

(** [BufferZoneAnalyzer.__init__] *)
Definition init (config : Config) : BufferZoneAnalyzer :=
  let input_dir := paths_input_dir config in
  let bz_settings :=
    match get_buffer_zone config with
    | Some s => s
    | None => mkBzSettings None None
    end in
  mkAnalyzer config _load_bz_config
    input_dir
    (path_join (paths_output_dir config) "buffer_zone")
    (path_join input_dir "coordinates")
    (path_join input_dir "images")
    bz_settings
    (match get_default_radius bz_settings with Some r => r | None => 5%Q end)
    (match get_allow_overlap bz_settings with Some b => b | None => false end).

(** Lines 49-62 of [_apply_mask_and_get_affinity]: the index triples of
    the active mask voxels, the affine and the masked data. *)
Definition load_mask_coords (niimg mask_img : option Niimg)
  : result (list voxel * Affine * option matrix) :=
  match niimg with
  | None =>
      ma <- call "_load_mask_img" (masking_load_mask_img w mask_img) ;;
      let mask_coords := zip3 (nonzero (fst ma)) in
      Ok (mask_coords, snd ma, None)
  | Some niimg =>
      match mask_img with
      | Some mask_img =>
          let affine := affine niimg in
          mask_img <- call "check_niimg_3d" (check_niimg_3d w mask_img) ;;
          mask_img <- call "resample_img"
                        (image_resample_img w mask_img affine (firstn 3 (shape niimg))) ;;
          ma <- call "_load_mask_img" (masking_load_mask_img w (Some mask_img)) ;;
          let mask_coords := zip3 (nonzero (fst ma)) in
          masked <- call "apply_mask" (masking_apply_mask w niimg mask_img) ;;
          let X := if (ndim masked =? 1)%nat then reshape_row masked
                   else match masked with Arr2 m => m | Arr1 v => [v] end in
          Ok (mask_coords, affine, Some X)
      | None => Raise (Raised ValueError no_input_msg)
      end
  end.

(** Lines 63-67: world coordinates of the mask voxels, the neighbour
    index and the graph of the seeds. *)
Definition radius_graph (seeds : list point) (radius : Q)
           (mask_coords : list voxel) (affine : Affine) : result csr :=
  let mask_coords := zip_star mask_coords in
  c0 <- getitem mask_coords 0 ;;
  c1 <- getitem mask_coords 1 ;;
  c2 <- getitem mask_coords 2 ;;
  let mask_coords := zip3 (coord_transform (map n2q c0) (map n2q c1) (map n2q c2) affine) in
  clf <- fit radius mask_coords ;;
  radius_neighbors_graph clf seeds.

Definition _apply_mask_and_get_affinity (seeds : list point) (niimg : option Niimg)
           (radius : Q) (allow_overlap : bool) (mask_img : option Niimg)
  : result (option matrix * csr) :=
  mc <- load_mask_coords niimg mask_img ;;
  A <- radius_graph seeds radius (fst (fst mc)) (snd (fst mc)) ;;
  Ok (snd mc, A).

(** The body of the loop over [enumerate(seeds)]: nothing for a seed
    without matched voxel, else its dictionary. *)
Definition seed_record (X : option matrix) (A : csr) (radius : Q)
           (i : nat) (seed : point) : result (option Row.t) :=
  Ai <- getrow A i ;;
  let sphere_voxels := nonzero_cols Ai in
  if (length sphere_voxels =? 0)%nat then Ok None
  else
    stats <- match X with
             | Some X =>
                 sphere_values <- take_columns X sphere_voxels ;;
                 let flat := concat sphere_values in
                 let mean_val := mean flat in
                 let std_val := std flat in
                 max_val <- max flat ;;
                 min_val <- min flat ;;
                 Ok (mean_val, std_val, max_val, min_val)
             | None => Ok (nan, nan, nan, nan)
             end ;;
    let '(mean_val, std_val, max_val, min_val) := stats in
    let '(sx, sy, sz) := seed in
    Ok (Some (Row.mk i sx sy sz radius (length sphere_voxels)
                mean_val std_val max_val min_val)).

(** Lines 80-96: the loop, from position [i] on. *)
Fixpoint seed_records (X : option matrix) (A : csr) (radius : Q)
         (i : nat) (seeds : list point) : result (list Row.t) :=
  match seeds with
  | [] => Ok []
  | seed :: rest =>
      r <- seed_record X A radius i seed ;;
      rs <- seed_records X A radius (S i) rest ;;
      Ok (match r with Some row => row :: rs | None => rs end)
  end.

Definition required_cols : list string := ["X"; "Y"; "Z"].

Definition error_line (e : exn) : string :=
  ("Error extracting buffer zone: " ++ str e)%string.

(** [extract_buffer_zone_data]: the rows of the returned frame and the
    lines handed to [logger.error]. *)
Definition extract_buffer_zone_data (self : BufferZoneAnalyzer)
           (coordinates_file image_file : string) (radius : option Q)
  : list Row.t * list string :=
  let radius := or_else radius (default_radius self) in
  let body :=
    coords_df <- call "read_csv" (pd_read_csv w coordinates_file) ;;
    if existsb (fun c => negb (has_column coords_df c)) required_cols then Ok []
    else
      let seeds := xyz_values coords_df in
      img <- call "load_img" (image_load_img w image_file) ;;
      XA <- _apply_mask_and_get_affinity seeds (Some img) radius
              (allow_overlap self) None ;;
      seed_records (fst XA) (snd XA) radius 0 seeds in
  match body with
  | Ok results => (results, [])
  | Raise e => ([], [error_line e])
  end.

Definition with_subject_id (df : list Row.t) (sid : string) : list OutRow :=
  map (fun r => mkOutRow r sid) df.

Definition df_empty {A} (df : list A) : bool :=
  match df with [] => true | _ => false end.

(** The state of the two loops: [all_results] and the error log. *)
Definition acc := (list (list OutRow) * list string)%type.

Definition radius_step (self : BufferZoneAnalyzer) (coord_file default_image sid : string)
           (st : acc) (radius : option Q) : acc :=
  let '(df, lg) := extract_buffer_zone_data self coord_file default_image radius in
  (if df_empty df then fst st else fst st ++ [with_subject_id df sid], snd st ++ lg).

Definition file_step (self : BufferZoneAnalyzer) (default_image : string)
           (radius_options : list (option Q)) (st : acc) (coord_file : string) : acc :=
  match extract_subject_id (basename coord_file) with
  | None => st
  | Some sid => fold_left (radius_step self coord_file default_image sid) radius_options st
  end.

Definition radius_options_of (self : BufferZoneAnalyzer) : list (option Q) :=
  match yaml_buffer_zone (bz_config self) with
  | Some sec =>
      match yaml_radius_options sec with
      | Some l => l
      | None => [Some (default_radius self)]
      end
  | None => [Some (default_radius self)]
  end.

(** [process_coordinate_files]: the table written to
    [buffer_zone_metrics.csv], if one is written, and the error log. *)
Definition process_coordinate_files (self : BufferZoneAnalyzer)
  : option (list OutRow) * list string :=
  let coord_files := get_file_list w (coordinates_dir self) (Some [".csv"]) in
  let image_files := get_file_list w (images_dir self) (Some [".nii.gz"; ".nii"]) in
  match coord_files, image_files with
  | [], _ => (None, [])
  | _, [] => (None, [])
  | _, default_image :: _ =>
      let radius_options := radius_options_of self in
      let '(all_results, lg) :=
        fold_left (file_step self default_image radius_options) coord_files ([], []) in
      (match all_results with
       | [] => None
       | _ => Some (concat all_results)
       end, lg)
  end.

End Analyzer.

(* ================================================================= *)
(** ** Reference notions used by the statements *)

(** [count_below n f]: the sum of [f 0], ..., [f (n-1)]. *)
Fixpoint count_below (n : nat) (f : nat -> nat) : nat :=
  match n with
  | O => 0
  | S m => count_below m f + f m
  end.

(** World position of the centre of voxel [(i, j, k)]. *)
Definition voxel_world (a : Affine) (i j k : nat) : point :=
  to_world a (n2q i) (n2q j) (n2q k).

(** Squared Euclidean distance at most [R * R]: for [0 < R], distance at
    most [R]. *)
Definition in_ball (R : Q) (seed p : point) : bool :=
  Qle_bool (sqdist p seed) (R * R).

(** The brute-force reference: visit every voxel of the grid and count the
    active ones whose world position lies in the ball around the seed. *)
Definition brute_force_count (mask : BoolVol) (a : Affine) (seed : point) (R : Q) : nat :=
  let '(nx, ny, nz) := bv_shape mask in
  count_below nx (fun i =>
    count_below ny (fun j =>
      count_below nz (fun k =>
        if bv_at mask i j k && in_ball R seed (voxel_world a i j k) then 1 else 0))).


(** The voxel count a frame reports for seed [i]; a seed without row
    counts as 0. *)
Definition reported (rows : list Row.t) (i : nat) : nat :=
  match find (fun r => Row.seed_id r =? i)%nat rows with
  | Some r => Row.voxel_count r
  | None => 0
  end.


(** [seeds] with their positions, as [enumerate] yields them from [i] on. *)
Definition enumerate_from {A} (i : nat) (l : list A) : list (nat * A) :=
  combine (seq i (length l)) l.

(** The mask volume and the affine that lines 49-62 of the helper end up
    with (the boolean volume whose non-zero voxels are indexed). *)
Definition loaded_mask (w : World) (niimg mask_img : option Niimg)
  : result (BoolVol * Affine) :=
  match niimg with
  | None => call "_load_mask_img" (masking_load_mask_img w mask_img)
  | Some niimg =>
      match mask_img with
      | Some mask_img =>
          mask_img <- call "check_niimg_3d" (check_niimg_3d w mask_img) ;;
          mask_img <- call "resample_img"
                        (image_resample_img w mask_img (affine niimg)
                           (firstn 3 (shape niimg))) ;;
          ma <- call "_load_mask_img" (masking_load_mask_img w (Some mask_img)) ;;
          Ok (fst ma, affine niimg)
      | None => Raise (Raised ValueError no_input_msg)
      end
  end.

(** World coordinates of a list of voxels, as lines 63-64 compute them. *)
Definition world_points (a : Affine) (vs : list voxel) : list point :=
  map (fun v => voxel_world a (fst (fst v)) (snd (fst v)) (snd v)) vs.

(** The active voxels of a mask, in C order. *)
Definition active_voxels (mask : BoolVol) : list voxel :=
  filter (at_voxel mask) (c_order (bv_shape mask)).

(** What one iteration of the loop appends to [results]. *)
Definition emitted (X : option matrix) (A : csr) (radius : Q)
           (i : nat) (seed : point) : list Row.t :=
  match seed_record X A radius i seed with
  | Ok (Some row) => [row]
  | _ => []
  end.

(** The four statistics of one seed, as the loop body computes them from
    the masked data. *)
Definition stats_of (X : option matrix) (cols : list nat)
  : result (npfloat * npfloat * npfloat * npfloat) :=
  match X with
  | Some Xm =>
      sphere_values <- take_columns Xm cols ;;
      let flat := concat sphere_values in
      let mean_val := mean flat in
      let std_val := std flat in
      max_val <- max flat ;;
      min_val <- min flat ;;
      Ok (mean_val, std_val, max_val, min_val)
  | None => Ok (nan, nan, nan, nan)
  end.


(** The key [default_radius] of a configuration, if it is set. *)
Definition default_radius_setting (c : Config) : option Q :=
  match get_buffer_zone c with
  | Some s => get_default_radius s
  | None => None
  end.

(** Two configurations that agree on everything the analyzer reads but,
    possibly, the flag [allow_overlap]. *)
Definition same_except_allow_overlap (c1 c2 : Config) : Prop :=
  paths_input_dir c1 = paths_input_dir c2
  /\ paths_output_dir c1 = paths_output_dir c2
  /\ default_radius_setting c1 = default_radius_setting c2.



(** The frames one coordinate file adds to [all_results] and the lines it
    adds to the log, radius by radius. *)
Definition frames_of_file (w : World) (self : BufferZoneAnalyzer)
           (default_image : string) (radius_options : list (option Q))
           (coord_file : string) : list (list OutRow) :=
  match extract_subject_id (basename coord_file) with
  | None => []
  | Some sid =>
      filter (fun df => negb (df_empty df))
             (map (fun radius =>
                     with_subject_id
                       (fst (extract_buffer_zone_data w self coord_file default_image radius))
                       sid)
                  radius_options)
  end.

Definition log_of_file (w : World) (self : BufferZoneAnalyzer)
           (default_image : string) (radius_options : list (option Q))
           (coord_file : string) : list string :=
  match extract_subject_id (basename coord_file) with
  | None => []
  | Some sid =>
      flat_map (fun radius =>
                  snd (extract_buffer_zone_data w self coord_file default_image radius))
               radius_options
  end.

(** The order of [sorted]: code point by code point. *)
Definition leb_str (a b : string) : Prop := String.leb a b = true.


(** The configuration with the flag [allow_overlap] set to [b]. *)
Definition set_allow_overlap (c : Config) (b : option bool) : Config :=
  mkConfig (paths_input_dir c) (paths_output_dir c)
    (Some (mkBzSettings
             (match get_buffer_zone c with
              | Some s => get_default_radius s
              | None => None
              end) b)).



(* ================================================================= *)
(** ** A simulated world for closed examples *)

Module Sim.

Fixpoint lookup {A} (k : string) (l : list (string * A)) : option A :=
  match l with
  | [] => None
  | (k', v) :: t => if String.eqb k k' then Some v else lookup k t
  end.

Definition row4_eqb (r s : row4) : bool :=
  let '(a, b, c, d) := r in
  let '(a', b', c', d') := s in
  Qeq_bool a a' && Qeq_bool b b' && Qeq_bool c c' && Qeq_bool d d'.

Definition affine_eqb (a b : Affine) : bool :=
  row4_eqb (ax a) (ax b) && row4_eqb (ay a) (ay b) && row4_eqb (az a) (az b).

Definition shape3 (s : list nat) : nat * nat * nat :=
  match s with
  | nx :: ny :: nz :: _ => (nx, ny, nz)
  | _ => (0, 0, 0)
  end.

Definition mask_of (img : Niimg) : BoolVol :=
  mkBoolVol (shape3 (shape img))
            (fun i j k => negb (Qeq_bool (get_data img [i; j; k]) 0)).

(** [_load_mask_img]: every non-zero value counts as true; unless
    [allow_empty], a mask without true voxel is refused. *)
Definition load_mask_img (allow_empty : bool) (m : option Niimg)
  : outcome (BoolVol * Affine) :=
  match m with
  | None => inl (TypeError, "Data given cannot be loaded")
  | Some img =>
      let mask := mask_of img in
      if negb allow_empty
         && negb (existsb (at_voxel mask) (c_order (bv_shape mask)))
      then inl (ValueError, "The mask is invalid as it is empty: it masks all data.")
      else inr (mask, affine img)
  end.

Definition check_3d (img : Niimg) : outcome Niimg :=
  if (length (shape img) =? 3)%nat then inr img
  else inl (TypeError, "Input data has incompatible dimensionality").

Fixpoint shape_eqb (s t : list nat) : bool :=
  match s, t with
  | [], [] => true
  | a :: s', b :: t' => (a =? b)%nat && shape_eqb s' t'
  | _, _ => false
  end.

(** Resampling onto the grid the mask already has is the identity; no
    other resampling is simulated. *)
Definition resample (mask : Niimg) (target_affine : Affine) (target_shape : list nat)
  : outcome Niimg :=
  if affine_eqb (affine mask) target_affine
     && shape_eqb (shape mask) target_shape
  then inr mask
  else inl (OtherError, "resampling onto another grid is not simulated").

Definition apply_mask (img mask_img : Niimg) : outcome ndarray :=
  let m := mask_of mask_img in
  let vs := filter (at_voxel m) (c_order (bv_shape m)) in
  match shape img with
  | [_; _; _] =>
      inr (Arr1 (map (fun v => get_data img [fst (fst v); snd (fst v); snd v]) vs))
  | [_; _; _; nt] =>
      inr (Arr2 (map (fun t =>
                        map (fun v => get_data img [fst (fst v); snd (fst v); snd v; t]) vs)
                     (seq 0 nt)))
  | _ => inl (TypeError, "Input data has incompatible dimensionality")
  end.

Record Files := mkFiles {
  dirs : list (string * list string);
  csvs : list (string * DataFrame);
  imgs : list (string * Niimg);
  yamls : list (string * BzYaml)
}.

Definition is_some {A} (o : option A) : bool :=
  match o with Some _ => true | None => false end.

Definition world (allow_empty : bool) (fs : Files) : World :=
  mkWorld
    (fun p => is_some (lookup p (dirs fs)) || is_some (lookup p (csvs fs))
              || is_some (lookup p (imgs fs)) || is_some (lookup p (yamls fs)))
    (fun p => is_some (lookup p (csvs fs)) || is_some (lookup p (imgs fs))
              || is_some (lookup p (yamls fs)))
    (fun p => match lookup p (dirs fs) with Some l => l | None => [] end)
    (fun p => match lookup p (yamls fs) with
              | Some y => inr y
              | None => inl (OSError, "No such file or directory")
              end)
    (fun p => match lookup p (csvs fs) with
              | Some df => inr df
              | None => inl (OSError, "No such file or directory")
              end)
    (fun p => match lookup p (imgs fs) with
              | Some img => inr img
              | None => inl (OSError, "No such file or directory")
              end)
    (load_mask_img allow_empty)
    check_3d
    resample
    apply_mask.

(** A grid with 2 mm isotropic spacing and origin (-2, -2, -2). *)
Definition affine2mm : Affine :=
  mkAffine (2, 0, 0, -(2))%Q (0, 2, 0, -(2))%Q (0, 0, 2, -(2))%Q.

(** A 3x3x3 mask, everywhere 1. *)
Definition cube_mask : Niimg :=
  mkNiimg affine2mm [3; 3; 3] (fun _ => 1%Q).


(** A 3x3x3 image whose intensity at (i, j, k) is 9 i + 3 j + k. *)
Definition ramp_img : Niimg :=
  mkNiimg affine2mm [3; 3; 3]
          (fun idx => match idx with
                      | [i; j; k] => n2q (9 * i + 3 * j + k)
                      | _ => 0%Q
                      end).

Definition coords_df : DataFrame :=
  mkDataFrame ["X"; "Y"; "Z"]
              [[0; 0; 0]; [40; 40; 40]; [2; 2; 2]; [0; 0; 0]]%Q.

Definition bad_df : DataFrame :=
  mkDataFrame ["X"; "Y"] [[0; 0]]%Q.

Definition files : Files :=
  mkFiles
    [("in/coordinates", ["b_0002.csv"; "notes.txt"; "a_0001.csv"; "c_0003.csv"]);
     ("in/images", ["t1.nii.gz"])]
    [("in/coordinates/a_0001.csv", coords_df);
     ("in/coordinates/b_0002.csv", bad_df);
     ("in/coordinates/c_0003.csv", coords_df)]
    [("in/images/t1.nii.gz", ramp_img)]
    [].

Definition w0 : World := world false files.

Definition cfg : Config := mkConfig "in" "out" None.

Definition seeds0 : list point := xyz_values coords_df.

(** The helper called with the image and the cube mask at radius 2, and
    the frame the loop builds from what it returns. *)
Definition graph0 : result (option matrix * csr) :=
  _apply_mask_and_get_affinity w0 seeds0 (Some ramp_img) 2 false (Some cube_mask).

Definition X0 : option matrix :=
  match graph0 with Ok xa => fst xa | Raise _ => None end.

Definition A0 : csr :=
  match graph0 with Ok xa => snd xa | Raise _ => [] end.

Definition rows0 : list Row.t :=
  match seed_records X0 A0 2 0 seeds0 with Ok rows => rows | Raise _ => [] end.

(** The first row of that frame. *)
Definition row0 : Row.t :=
  nth 0 rows0 (Row.mk 0 0 0 0 0 0 nan nan nan nan).

End Sim.

(* ================================================================= *)
(** ** The rest of [scripts/utils.py] *)

(** A Python dictionary with string keys, as an association list read
    from the front. *)
Fixpoint dict_get {V} (k : string) (d : list (string * V)) : option V :=
  match d with
  | [] => None
  | (k', v) :: t => if String.eqb k k' then Some v else dict_get k t
  end.

(** [k in d] *)
Definition dict_has {V} (k : string) (d : list (string * V)) : bool :=
  match dict_get k d with
  | Some _ => true
  | None => false
  end.

(** A loaded YAML configuration: its sections by name, each a mapping
    from keys to scalar values (kept as text). *)
Definition RawConfig := list (string * list (string * string)).

Definition upper_char (c : ascii) : ascii :=
  let n := nat_of_ascii c in
  if (97 <=? n)%nat && (n <=? 122)%nat then ascii_of_nat (n - 32) else c.

(** [s.upper()] on ASCII text. *)
Fixpoint upper (s : string) : string :=
  match s with
  | EmptyString => EmptyString
  | String c rest => String (upper_char c) (upper rest)
  end.

Definition required_sections : list string := ["pipeline"; "paths"; "logging"].
Definition required_paths : list string := ["input_dir"; "output_dir"; "logs_dir"].
Definition logging_levels : list string := ["DEBUG"; "INFO"; "WARNING"; "ERROR"].

Definition missing_section (section : string) : exn :=
  Raised ValueError ("Missing required configuration section: " ++ section)%string.

Definition missing_path (path_key : string) : exn :=
  Raised ValueError ("Missing required path configuration: " ++ path_key)%string.

Definition invalid_level (level : string) : exn :=
  Raised ValueError ("Invalid logging level: " ++ level)%string.

(** [d[k]] *)
Definition dict_item {V} (k : string) (d : list (string * V)) : result V :=
  match dict_get k d with
  | Some v => Ok v
  | None => Raise (FromLibrary "dict" OtherError ("KeyError: " ++ k)%string)
  end.

(** [validate_config(config)]: returns [None] or raises. *)
Definition validate_config (config : RawConfig) : result unit :=
  match find (fun section => negb (dict_has section config)) required_sections with
  | Some section => Raise (missing_section section)
  | None =>
      paths <- dict_item "paths" config ;;
      match find (fun path_key => negb (dict_has path_key paths)) required_paths with
      | Some path_key => Raise (missing_path path_key)
      | None =>
          let logging := match dict_get "logging" config with
                         | Some l => l
                         | None => []
                         end in
          if dict_has "level" logging then
            logging <- dict_item "logging" config ;;
            level <- dict_item "level" logging ;;
            let level := upper level in
            if existsb (String.eqb level) logging_levels then Ok tt
            else Raise (invalid_level level)
          else Ok tt
      end
  end.

(** [df.empty]: one of the two axes has length 0. *)
Definition frame_empty (df : DataFrame) : bool :=
  match columns df, values df with
  | [], _ => true
  | _, [] => true
  | _, _ => false
  end.

(** [validate_dataframe(df, required_columns, min_rows)] *)
Definition validate_dataframe (df : option DataFrame)
           (required_columns : option (list string)) (min_rows : Z) : bool :=
  match df with
  | None => false
  | Some df =>
      if frame_empty df || (Z.of_nat (length (values df)) <? min_rows)%Z then false
      else
        match required_columns with
        | Some (c :: cs) =>
            match filter (fun col => negb (has_column df col)) (c :: cs) with
            | [] => true
            | _ => false
            end
        | _ => true
        end
  end.

(** [safe_divide(numerator, denominator, default)] on numbers. *)
Definition safe_divide (numerator denominator default : Q) : Q :=
  if Qeq_bool denominator 0 then default else (numerator / denominator)%Q.

(* ================================================================= *)
(** ** [BufferZoneAnalyzer.run] and [run_ibis_pipeline.py] *)

(** What a step hands back to [run_pipeline]: [None] or a boolean. *)
Inductive pyval :=
| PyNone
| PyBool (b : bool).

Definition py_truthy (v : pyval) : bool :=
  match v with
  | PyNone => false
  | PyBool b => b
  end.

(** [BufferZoneAnalyzer.run]: [process_coordinate_files] in a [try] whose
    handler logs and raises again; there is no [return] statement.  Besides
    the value, the table written (if any) and the error log. *)
Definition run (w : World) (self : BufferZoneAnalyzer)
  : result pyval * (option (list OutRow) * list string) :=
  (Ok PyNone, process_coordinate_files w self).

(** The [run] method of the three other components: a body that returns
    or raises, in a [try] whose handler logs and raises again, and no
    [return] statement. *)
Definition component_run (body : result unit) : result pyval :=
  _ <- body ;; Ok PyNone.

(** The four components of [IBISPipeline], each by what its [run] does. *)
Record Pipeline := mkPipeline {
  roi_extractor_run : result pyval;
  buffer_zone_analyzer_run : result pyval;
  variable_extractor_run : result pyval;
  data_consolidator_run : result pyval
}.

(** The dictionary [pipeline_steps], in insertion order. *)
Definition pipeline_steps (p : Pipeline) : list (string * result pyval) :=
  [("roi_extraction", roi_extractor_run p);
   ("buffer_zone", buffer_zone_analyzer_run p);
   ("variable_extraction", variable_extractor_run p);
   ("consolidation", data_consolidator_run p)].

(** What [run_pipeline] hands to [logger.error]: the invalid steps, a
    step that returned a falsy value, or a step that raised (its message
    and its traceback). *)
Inductive log_event :=
| InvalidSteps (invalid : list string)
| StepFailed (step_name : string)
| StepRaised (step_name : string) (e : exn).

Definition event_step (ev : log_event) : list string :=
  match ev with
  | InvalidSteps _ => []
  | StepFailed n => [n]
  | StepRaised n _ => [n]
  end.

(** One iteration of the loop over [steps]: the success counter and the
    log. *)
Definition run_step (p : Pipeline) (st : nat * list log_event) (step_name : string)
  : nat * list log_event :=
  match dict_item step_name (pipeline_steps p) with
  | Ok step =>
      match step with
      | Ok v =>
          if py_truthy v then (S (fst st), snd st)
          else (fst st, snd st ++ [StepFailed step_name])
      | Raise e => (fst st, snd st ++ [StepRaised step_name e])
      end
  | Raise e => (fst st, snd st ++ [StepRaised step_name e])
  end.

(** [IBISPipeline.run_pipeline(steps)] *)
Definition run_pipeline (p : Pipeline) (steps : option (list string))
  : bool * list log_event :=
  let steps := match steps with
               | Some (s :: l) => s :: l
               | _ => map fst (pipeline_steps p)
               end in
  match filter (fun s => negb (dict_has s (pipeline_steps p))) steps with
  | i :: invalid => (false, [InvalidSteps (i :: invalid)])
  | [] =>
      let '(success_count, lg) := fold_left (run_step p) steps (0, []) in
      ((success_count =? length steps)%nat, lg)
  end.

(** The pipeline whose buffer-zone step is [run] and whose other steps
    have the given bodies. *)
Definition pipeline_of (w : World) (self : BufferZoneAnalyzer)
           (roi_body var_body cons_body : result unit) : Pipeline :=
  mkPipeline (component_run roi_body) (fst (run w self))
             (component_run var_body) (component_run cons_body).

(** [IBISPipeline.validate_environment]: the directories it creates, in
    order.  [path_exists created path] is [os.path.exists(path)] and
    [makedirs created path] is [os.makedirs(path, exist_ok=True)], each once
    the directories [created] have been made. *)
Definition ensure_dir (path_exists : list string -> string -> bool)
           (makedirs : list string -> string -> outcome unit)
           (config : RawConfig) (created : list string) (key : string)
  : result (list string) :=
  paths <- dict_item "paths" config ;;
  path <- dict_item key paths ;;
  if path_exists created path then Ok created
  else
    _ <- call "makedirs" (makedirs created path) ;;
    Ok (created ++ [path]).

Definition validate_environment (path_exists : list string -> string -> bool)
           (makedirs : list string -> string -> outcome unit)
           (config : RawConfig) : result (list string) :=
  created <- ensure_dir path_exists makedirs config [] "input_dir" ;;
  created <- ensure_dir path_exists makedirs config created "output_dir" ;;
  _ <- validate_config config ;;
  Ok created.

(** The steps [run_pipeline] works on: the given ones, or all when none
    is given. *)
Definition requested_steps (p : Pipeline) (steps : option (list string)) : list string :=
  match steps with
  | Some (s :: l) => s :: l
  | _ => map fst (pipeline_steps p)
  end.

(** All characters of a string satisfy a test. *)
Fixpoint string_forall (f : ascii -> bool) (s : string) : bool :=
  match s with
  | EmptyString => true
  | String c rest => f c && string_forall f rest
  end.

Definition no_slash (s : string) : bool :=
  string_forall (fun c => negb (Ascii.eqb c "/")) s.




(* ================================================================= *)
(** * Properties *)

(** ** Results *)

Lemma bind_ok {A B} (r : result A) (k : A -> result B) (b : B) :
  bind r k = Ok b -> exists a, r = Ok a /\ k a = Ok b.
Proof.
  destruct r as [a | e]; simpl; intros H.
  - exists a. split; [reflexivity | exact H].
  - discriminate H.
Qed.

Lemma bind_raise {A B} (r : result A) (k : A -> result B) (e : exn) :
  bind r k = Raise e -> r = Raise e \/ exists a, r = Ok a /\ k a = Raise e.
Proof.
  destruct r as [a | e']; simpl; intros H.
  - right. exists a. split; [reflexivity | exact H].
  - left. inversion H. reflexivity.
Qed.

Lemma call_raise {A} (fn : string) (o : outcome A) (e : exn) :
  call fn o = Raise e -> exists c msg, e = FromLibrary fn c msg.
Proof.
  destruct o as [[c msg] | a]; simpl; intros H.
  - inversion H. exists c, msg. reflexivity.
  - discriminate H.
Qed.

Lemma getitem_raise {A} (l : list A) (i : nat) (e : exn) :
  getitem l i = Raise e -> exists fn c msg, e = FromLibrary fn c msg.
Proof.
  unfold getitem. destruct (nth_error l i); intros H; inversion H.
  eauto.
Qed.

Lemma fit_raise (r : Q) (pts : list point) (e : exn) :
  fit r pts = Raise e -> exists fn c msg, e = FromLibrary fn c msg.
Proof.
  destruct pts; simpl; intros H; inversion H. eauto.
Qed.

Lemma radius_neighbors_graph_raise (clf : NearestNeighbors) (seeds : list point) (e : exn) :
  radius_neighbors_graph clf seeds = Raise e -> exists fn c msg, e = FromLibrary fn c msg.
Proof.
  destruct seeds; simpl; intros H; inversion H. eauto.
Qed.

(** Splits a hypothesis [bind r k = Raise e] into its two cases. *)
Ltac raise_cases H :=
  let a := fresh "a" in
  let Ha := fresh "Ha" in
  apply bind_raise in H; destruct H as [H | [a [Ha H]]].

(** The only exception the helper raises by itself is the one of its
    [else] branch; everything else comes out of a library call. *)
Lemma radius_graph_raise (seeds : list point) (r : Q) (mc : list voxel) (a : Affine) (e : exn) :
  radius_graph seeds r mc a = Raise e -> exists fn c msg, e = FromLibrary fn c msg.
Proof.
  unfold radius_graph. intros H.
  raise_cases H; [eapply getitem_raise; eassumption |].
  raise_cases H; [eapply getitem_raise; eassumption |].
  raise_cases H; [eapply getitem_raise; eassumption |].
  raise_cases H; [eapply fit_raise; eassumption |].
  eapply radius_neighbors_graph_raise; eassumption.
Qed.

Lemma load_mask_coords_raise (w : World) (niimg mask_img : option Niimg) (e : exn) :
  load_mask_coords w niimg mask_img = Raise e ->
  (niimg <> None /\ mask_img = None /\ e = Raised ValueError no_input_msg)
  \/ exists fn c msg, e = FromLibrary fn c msg.
Proof.
  unfold load_mask_coords. destruct niimg as [img |].
  - destruct mask_img as [m |].
    + intros H. right.
      raise_cases H; [apply call_raise in H; destruct H as (c & msg & ->); eauto |].
      raise_cases H; [apply call_raise in H; destruct H as (c & msg & ->); eauto |].
      raise_cases H; [apply call_raise in H; destruct H as (c & msg & ->); eauto |].
      raise_cases H; [apply call_raise in H; destruct H as (c & msg & ->); eauto |].
      discriminate H.
    + intros H. inversion H. left. repeat split. discriminate.
  - intros H. right.
    raise_cases H; [apply call_raise in H; destruct H as (c & msg & ->); eauto |].
    discriminate H.
Qed.

Lemma helper_own_raise (w : World) (seeds : list point) (niimg : option Niimg) (r : Q)
      (ao : bool) (mask_img : option Niimg) (c : exn_class) (msg : string) :
  _apply_mask_and_get_affinity w seeds niimg r ao mask_img = Raise (Raised c msg)
  <-> (niimg <> None /\ mask_img = None /\ c = ValueError /\ msg = no_input_msg).
Proof.
  unfold _apply_mask_and_get_affinity. split.
  - intros H. raise_cases H.
    + apply load_mask_coords_raise in H.
      destruct H as [(Hn & Hm & He) | (fn & c' & msg' & He)].
      * inversion He. auto.
      * discriminate He.
    + raise_cases H.
      * apply radius_graph_raise in H. destruct H as (fn & c' & msg' & He).
        discriminate He.
      * discriminate H.
  - intros (Hn & -> & -> & ->).
    destruct niimg as [img |]; [reflexivity | contradiction Hn; reflexivity].
Qed.

Lemma helper_without_mask (w : World) (seeds : list point) (img : Niimg) (r : Q) (ao : bool) :
  _apply_mask_and_get_affinity w seeds (Some img) r ao None
  = Raise (Raised ValueError no_input_msg).
Proof. reflexivity. Qed.

Lemma extract_rows_nil (w : World) (self : BufferZoneAnalyzer)
      (coordinates_file image_file : string) (radius : option Q) :
  fst (extract_buffer_zone_data w self coordinates_file image_file radius) = [].
Proof.
  unfold extract_buffer_zone_data.
  destruct (pd_read_csv w coordinates_file) as [[c msg] | df]; simpl; [reflexivity |].
  destruct (has_column df "X"), (has_column df "Y"), (has_column df "Z");
    simpl; try reflexivity.
  destruct (image_load_img w image_file) as [[c msg] | img]; simpl; reflexivity.
Qed.

(** C2.  Whatever the inputs, [extract_buffer_zone_data] returns a frame
    without rows.  The helper raises its own [ValueError] exactly when an
    image is given and no mask is.  For a coordinate file that has the
    columns X, Y and Z and an image that loads, the call made by
    [extract_buffer_zone_data] (image given, [mask_img] left at [None]) raises
    that error, the handler logs it, and the empty frame is returned. *)
Theorem extract_call_path_emits_nothing (w : World) (self : BufferZoneAnalyzer)
        (coordinates_file image_file : string) (radius : option Q) :
  fst (extract_buffer_zone_data w self coordinates_file image_file radius) = []
  /\ (forall seeds niimg r ao mask_img c msg,
         _apply_mask_and_get_affinity w seeds niimg r ao mask_img = Raise (Raised c msg)
         <-> (niimg <> None /\ mask_img = None /\ c = ValueError /\ msg = no_input_msg))
  /\ (forall df img,
         pd_read_csv w coordinates_file = inr df ->
         forallb (has_column df) required_cols = true ->
         image_load_img w image_file = inr img ->
         _apply_mask_and_get_affinity w (xyz_values df) (Some img)
           (or_else radius (default_radius self)) (allow_overlap self) None
         = Raise (Raised ValueError no_input_msg)
         /\ extract_buffer_zone_data w self coordinates_file image_file radius
            = ([], [error_line (Raised ValueError no_input_msg)])).
Proof.
  split; [apply extract_rows_nil |].
  split; [intros; apply helper_own_raise |].
  intros df img Hcsv Hcols Himg.
  split; [reflexivity |].
  unfold extract_buffer_zone_data. rewrite Hcsv. simpl call. cbv beta iota.
  unfold bind at 1.
  assert (Hex : existsb (fun c => negb (has_column df c)) required_cols = false).
  { simpl in Hcols |- *.
    destruct (has_column df "X"); [| discriminate Hcols].
    destruct (has_column df "Y"); [| discriminate Hcols].
    destruct (has_column df "Z"); [| discriminate Hcols].
    reflexivity. }
  rewrite Hex, Himg. reflexivity.
Qed.

Lemma extract_call_path_emits_nothing_witness :
  extract_buffer_zone_data Sim.w0 (init Sim.w0 Sim.cfg)
    "in/coordinates/a_0001.csv" "in/images/t1.nii.gz" (Some 2%Q)
  = ([], ["Error extracting buffer zone: Either niimg or mask_img must be provided"]).
Proof.
  exact (proj2 (proj2 (proj2 (extract_call_path_emits_nothing Sim.w0 (init Sim.w0 Sim.cfg)
                         "in/coordinates/a_0001.csv" "in/images/t1.nii.gz" (Some 2%Q)))
                 Sim.coords_df Sim.ramp_img eq_refl eq_refl eq_refl)).
Defined.

(** ** Index plumbing of the helper *)

Section Plumbing.

Lemma combine_map_same {A B C} (f : A -> B) (g : A -> C) (l : list A) :
  combine (map f l) (map g l) = map (fun x => (f x, g x)) l.
Proof.
  induction l as [| x l IH]; simpl; [reflexivity | rewrite IH; reflexivity].
Qed.

(** Zipping the three index arrays of [nonzero] gives back the voxels. *)
Lemma zip3_projections {A} (vs : list (A * A * A)) :
  zip3 (map (fun v => fst (fst v)) vs, map (fun v => snd (fst v)) vs, map snd vs) = vs.
Proof.
  unfold zip3. rewrite combine_map_same, combine_map_same, map_map.
  rewrite <- (map_id vs) at 2. apply map_ext.
  intros [[a b] c]. reflexivity.
Qed.

Lemma zip3_nonzero (m : BoolVol) :
  zip3 (nonzero m) = filter (at_voxel m) (c_order (bv_shape m)).
Proof. unfold nonzero. apply zip3_projections. Qed.

Lemma transformed_points (a : Affine) (vs : list voxel) :
  zip3 (coord_transform (map n2q (map (fun v => fst (fst v)) vs))
                        (map n2q (map (fun v => snd (fst v)) vs))
                        (map n2q (map snd vs)) a)
  = world_points a vs.
Proof.
  unfold coord_transform, zip3, world_points.
  rewrite !map_map.
  rewrite !combine_map_same, !map_map.
  apply map_ext. intros [[i j] k]. reflexivity.
Qed.

Lemma radius_graph_nil (seeds : list point) (r : Q) (a : Affine) :
  radius_graph seeds r [] a = Raise (FromLibrary "numpy" IndexError "index out of bounds").
Proof. reflexivity. Qed.

Lemma radius_graph_cons (seed : point) (seeds : list point) (r : Q)
      (v : voxel) (vs : list voxel) (a : Affine) :
  radius_graph (seed :: seeds) r (v :: vs) a
  = Ok (map (graph_row (mkNN r (world_points a (v :: vs)))) (seed :: seeds)).
Proof.
  unfold radius_graph.
  change (zip_star (v :: vs))
    with [map (fun u : voxel => fst (fst u)) (v :: vs);
          map (fun u : voxel => snd (fst u)) (v :: vs);
          map snd (v :: vs)].
  cbn [getitem nth_error bind].
  rewrite transformed_points. reflexivity.
Qed.

Lemma radius_graph_ok (seeds : list point) (r : Q) (mc : list voxel) (a : Affine) (A : csr) :
  radius_graph seeds r mc a = Ok A ->
  mc <> [] /\ seeds <> [] /\ A = map (graph_row (mkNN r (world_points a mc))) seeds.
Proof.
  destruct mc as [| v vs]; [rewrite radius_graph_nil; discriminate |].
  destruct seeds as [| s ss].
  - unfold radius_graph.
    change (zip_star (v :: vs))
      with [map (fun u : voxel => fst (fst u)) (v :: vs);
            map (fun u : voxel => snd (fst u)) (v :: vs);
            map snd (v :: vs)].
    cbn [getitem nth_error bind]. rewrite transformed_points. discriminate.
  - rewrite radius_graph_cons. intros H. inversion H.
    repeat split; discriminate.
Qed.



Lemma nonzero_cols_ones (js : list nat) :
  nonzero_cols (map (fun j => (j, 1%Q)) js) = js.
Proof.
  unfold nonzero_cols. induction js as [| j js IH]; simpl; [reflexivity |].
  rewrite IH. reflexivity.
Qed.

Lemma nonzero_cols_graph_row (clf : NearestNeighbors) (s : point) :
  nonzero_cols (graph_row clf s) = find_all (within (nn_radius clf) s) (nn_fit_X clf) 0.
Proof. unfold graph_row. apply nonzero_cols_ones. Qed.








End Plumbing.

(** ** The loop over the seeds *)

Section Loop.

Variables (X : option matrix) (A : csr) (radius : Q).

Lemma seed_record_none (i : nat) (seed : point) :
  seed_record X A radius i seed = Ok None <->
  exists Ai, getrow A i = Ok Ai /\ nonzero_cols Ai = [].
Proof.
  unfold seed_record. split.
  - intros H. apply bind_ok in H. destruct H as (Ai & HA & H).
    exists Ai. split; [exact HA |].
    destruct (nonzero_cols Ai) as [| c cs]; [reflexivity |].
    exfalso. cbn [length Nat.eqb] in H.
    apply bind_ok in H. destruct H as ([[[m s] mx] mn] & _ & H).
    destruct seed as [[sx sy] sz]. discriminate H.
  - intros (Ai & HA & Hnil). rewrite HA. cbn [bind]. rewrite Hnil. reflexivity.
Qed.

Lemma seed_record_some (i : nat) (seed : point) (row : Row.t) :
  seed_record X A radius i seed = Ok (Some row) <->
  exists Ai st,
    getrow A i = Ok Ai /\ nonzero_cols Ai <> [] /\
    stats_of X (nonzero_cols Ai) = Ok st /\
    row = Row.mk i (fst (fst seed)) (snd (fst seed)) (snd seed) radius
                 (length (nonzero_cols Ai))
                 (fst (fst (fst st))) (snd (fst (fst st))) (snd (fst st)) (snd st).
Proof.
  unfold seed_record, stats_of. split.
  - intros H. apply bind_ok in H. destruct H as (Ai & HA & H).
    destruct (nonzero_cols Ai) as [| c cs] eqn:Hc; [discriminate H |].
    cbn [length Nat.eqb] in H.
    apply bind_ok in H. destruct H as (st & Hst & H).
    exists Ai, st. rewrite Hc.
    split; [exact HA |]. split; [discriminate |]. split; [exact Hst |].
    destruct st as [[[m s] mx] mn]. destruct seed as [[sx sy] sz].
    inversion H. reflexivity.
  - intros (Ai & st & HA & Hne & Hst & ->).
    rewrite HA. cbn [bind].
    destruct (nonzero_cols Ai) as [| c cs] eqn:Hc; [contradiction Hne; reflexivity |].
    cbn [length Nat.eqb]. rewrite Hst. cbn [bind].
    destruct st as [[[m s] mx] mn]. destruct seed as [[sx sy] sz]. reflexivity.
Qed.

(** When the loop completes, the frame holds, seed after seed, what each
    iteration emitted. *)
Lemma seed_records_emitted (seeds : list point) :
  forall (i : nat) (rows : list Row.t),
    seed_records X A radius i seeds = Ok rows ->
    rows = flat_map (fun ks => emitted X A radius (fst ks) (snd ks)) (enumerate_from i seeds)
    /\ Forall (fun ks => exists o, seed_record X A radius (fst ks) (snd ks) = Ok o)
              (enumerate_from i seeds).
Proof.
  induction seeds as [| seed rest IH]; intros i rows H.
  - inversion H. split; [reflexivity | constructor].
  - cbn [seed_records] in H.
    apply bind_ok in H. destruct H as (r & Hr & H).
    apply bind_ok in H. destruct H as (rs & Hrs & H).
    inversion H; subst rows; clear H.
    destruct (IH (S i) rs Hrs) as [Heq Hall].
    unfold enumerate_from in *. cbn [length seq combine flat_map fst snd].
    split.
    + unfold emitted at 1. rewrite Hr. rewrite <- Heq.
      destruct r; reflexivity.
    + constructor; [exists r; exact Hr | exact Hall].
Qed.

Lemma emitted_seed_id (i : nat) (seed : point) (row : Row.t) :
  In row (emitted X A radius i seed) -> Row.seed_id row = i.
Proof.
  unfold emitted. destruct (seed_record X A radius i seed) as [[r |] | e] eqn:H;
    simpl; try contradiction.
  intros [<- | []]. apply seed_record_some in H.
  destruct H as (Ai & st & _ & _ & _ & ->). reflexivity.
Qed.

Lemma in_enumerate_from {B} (l : list B) (s k : nat) (b : B) :
  In (k, b) (enumerate_from s l) <-> s <= k /\ nth_error l (k - s) = Some b.
Proof.
  unfold enumerate_from. revert s. induction l as [| a l IH]; intros s; simpl.
  - split; [contradiction |]. intros [_ H]. destruct (k - s); discriminate H.
  - rewrite IH. split.
    + intros [H | [Hle H]].
      * inversion H; subst. rewrite Nat.sub_diag. split; [lia | reflexivity].
      * split; [lia |]. replace (k - s) with (S (k - S s)) by lia. exact H.
    + intros [Hle H]. destruct (k - s) as [| n] eqn:Hk.
      * left. inversion H. f_equal. lia.
      * right. split; [lia |]. replace (k - S s) with n by lia. exact H.
Qed.

(** Membership in the frame, seed by seed. *)
Lemma in_seed_records (seeds : list point) (rows : list Row.t) (row : Row.t) :
  seed_records X A radius 0 seeds = Ok rows ->
  (In row rows <->
   exists seed, nth_error seeds (Row.seed_id row) = Some seed
                /\ seed_record X A radius (Row.seed_id row) seed = Ok (Some row)).
Proof.
  intros H. apply seed_records_emitted in H. destruct H as [-> _].
  rewrite in_flat_map. split.
  - intros ([k seed] & Hin & Hrow). cbn [fst snd] in Hrow.
    pose proof (emitted_seed_id _ _ _ Hrow) as Hid. subst k.
    apply in_enumerate_from in Hin. rewrite Nat.sub_0_r in Hin.
    exists seed. split; [apply Hin |].
    unfold emitted in Hrow.
    destruct (seed_record X A radius (Row.seed_id row) seed) as [[r |] | e];
      simpl in Hrow; try contradiction.
    destruct Hrow as [-> | []]. reflexivity.
  - intros (seed & Hnth & Hrec).
    exists (Row.seed_id row, seed). split.
    + apply in_enumerate_from. rewrite Nat.sub_0_r. split; [lia | exact Hnth].
    + cbn [fst snd]. unfold emitted. rewrite Hrec. left. reflexivity.
Qed.

Lemma find_flat_map_none (seeds : list point) (s i : nat) :
  i < s ->
  find (fun r => (Row.seed_id r =? i)%nat)
       (flat_map (fun ks => emitted X A radius (fst ks) (snd ks)) (enumerate_from s seeds)) = None.
Proof.
  intros Hlt.
  destruct (find _ _) as [r |] eqn:Hf; [| reflexivity].
  apply find_some in Hf. destruct Hf as [Hin Hid].
  apply in_flat_map in Hin. destruct Hin as ([k seed] & Hin & Hrow).
  apply emitted_seed_id in Hrow. cbn [fst] in Hrow.
  apply in_enumerate_from in Hin. apply Nat.eqb_eq in Hid. lia.
Qed.

Lemma find_app {B} (f : B -> bool) (l1 l2 : list B) :
  find f (l1 ++ l2) = match find f l1 with Some b => Some b | None => find f l2 end.
Proof.
  induction l1 as [| b l1 IH]; simpl; [reflexivity |].
  destruct (f b); [reflexivity | exact IH].
Qed.

(** The count a completed frame reports for seed [i] is the size of its
    matched set (0 when that set is empty: no row). *)
Lemma reported_is_matched (seeds : list point) :
  forall (s i : nat) (rows : list Row.t) (seed : point) (Ai : list (nat * Q)),
    seed_records X A radius s seeds = Ok rows ->
    s <= i ->
    nth_error seeds (i - s) = Some seed ->
    getrow A i = Ok Ai ->
    reported rows i = length (nonzero_cols Ai).
Proof.
  induction seeds as [| seed0 rest IH]; intros s i rows seed Ai H Hle Hnth HA.
  - destruct (i - s); discriminate Hnth.
  - unfold reported.
    pose proof (seed_records_emitted _ _ _ H) as [Hrows Hall].
    cbn [seed_records] in H.
    apply bind_ok in H. destruct H as (r & Hr & H).
    apply bind_ok in H. destruct H as (rs & Hrs & H).
    inversion H; subst rows; clear H.
    destruct (Nat.eq_dec i s) as [-> | Hne].
    + rewrite Nat.sub_diag in Hnth. inversion Hnth; subst seed0.
      destruct r as [row |].
      * pose proof Hr as Hr'. apply seed_record_some in Hr'.
        destruct Hr' as (Ai' & st & HA' & _ & _ & ->).
        rewrite HA in HA'. inversion HA'; subst Ai'.
        cbn [find Row.seed_id]. rewrite Nat.eqb_refl. reflexivity.
      * apply seed_record_none in Hr. destruct Hr as (Ai' & HA' & Hnil).
        rewrite HA in HA'. inversion HA'; subst Ai'. rewrite Hnil.
        apply seed_records_emitted in Hrs. destruct Hrs as [-> _].
        rewrite find_flat_map_none by lia. reflexivity.
    + assert (Hrest : reported rs i = length (nonzero_cols Ai)).
      { apply (IH (S s) i rs seed Ai Hrs); [lia | | exact HA].
        replace (i - s) with (S (i - S s)) in Hnth by lia. exact Hnth. }
      unfold reported in Hrest.
      destruct r as [row |]; [| exact Hrest].
      apply seed_record_some in Hr. destruct Hr as (Ai' & st & _ & _ & _ & ->).
      cbn [find Row.seed_id].
      destruct (s =? i)%nat eqn:Hsi; [apply Nat.eqb_eq in Hsi; lia | exact Hrest].
Qed.

End Loop.

(** ** The helper, when it returns *)

Section Helper.

Variable w : World.

Lemma load_mask_coords_ok (niimg mask_img : option Niimg)
      (mc : list voxel) (a : Affine) (X : option matrix) :
  load_mask_coords w niimg mask_img = Ok (mc, a, X) ->
  exists mask, loaded_mask w niimg mask_img = Ok (mask, a) /\ mc = active_voxels mask.
Proof.
  unfold load_mask_coords, loaded_mask, active_voxels.
  destruct niimg as [img |]; [destruct mask_img as [m |] |]; intros H.
  - apply bind_ok in H. destruct H as (m1 & H1 & H). rewrite H1. cbn [bind].
    apply bind_ok in H. destruct H as (m2 & H2 & H). rewrite H2. cbn [bind].
    apply bind_ok in H. destruct H as (ma & H3 & H). rewrite H3. cbn [bind].
    apply bind_ok in H. destruct H as (masked & H4 & H).
    inversion H. exists (fst ma). split; [reflexivity | apply zip3_nonzero].
  - discriminate H.
  - apply bind_ok in H. destruct H as (ma & H1 & H). rewrite H1.
    inversion H. exists (fst ma). split; [destruct ma; reflexivity | apply zip3_nonzero].
Qed.

Lemma helper_ok (seeds : list point) (niimg : option Niimg) (r : Q) (ao : bool)
      (mask_img : option Niimg) (X : option matrix) (A : csr) :
  _apply_mask_and_get_affinity w seeds niimg r ao mask_img = Ok (X, A) ->
  exists mask a,
    loaded_mask w niimg mask_img = Ok (mask, a)
    /\ load_mask_coords w niimg mask_img = Ok (active_voxels mask, a, X)
    /\ active_voxels mask <> []
    /\ seeds <> []
    /\ A = map (graph_row (mkNN r (world_points a (active_voxels mask)))) seeds.
Proof.
  unfold _apply_mask_and_get_affinity. intros H.
  apply bind_ok in H. destruct H as ([[mc a] X'] & Hload & H).
  apply bind_ok in H. destruct H as (A' & Hgraph & H).
  cbn [fst snd] in *. inversion H; subst X' A'; clear H.
  destruct (load_mask_coords_ok _ _ _ _ _ Hload) as (mask & Hmask & ->).
  apply radius_graph_ok in Hgraph. destruct Hgraph as (Hne & Hseeds & ->).
  exists mask, a. auto.
Qed.

(** The helper returns as soon as its library calls do, one voxel of the
    mask is active and one seed is given. *)
Lemma helper_returns (seeds : list point) (niimg : option Niimg) (r : Q) (ao : bool)
      (mask_img : option Niimg) (mc : list voxel) (a : Affine) (X : option matrix) :
  load_mask_coords w niimg mask_img = Ok (mc, a, X) ->
  mc <> [] -> seeds <> [] ->
  _apply_mask_and_get_affinity w seeds niimg r ao mask_img
  = Ok (X, map (graph_row (mkNN r (world_points a mc))) seeds).
Proof.
  intros Hload Hmc Hseeds. unfold _apply_mask_and_get_affinity.
  rewrite Hload. cbn [bind fst snd].
  destruct mc as [| v vs]; [contradiction Hmc; reflexivity |].
  destruct seeds as [| s ss]; [contradiction Hseeds; reflexivity |].
  rewrite radius_graph_cons. reflexivity.
Qed.




Lemma getrow_map {B} (f : B -> list (nat * Q)) (l : list B) (i : nat) (b : B) :
  nth_error l i = Some b -> getrow (map f l) i = Ok (f b).
Proof.
  intros H. unfold getrow. rewrite nth_error_map, H. reflexivity.
Qed.

End Helper.



(** The counts of the example: 7 voxels around the centre of the cube, none
    around a far seed, 4 around a corner. *)
Example example_counts :
  map (reported Sim.rows0) [0; 1; 2; 3] = [7; 0; 4; 7]
  /\ map (fun seed => brute_force_count (Sim.mask_of Sim.cube_mask) Sim.affine2mm seed 2)
         Sim.seeds0 = [7; 0; 4; 7].
Proof. split; vm_compute; reflexivity. Qed.

(** ** Emission of records *)

Lemma seed_record_getrow (X : option matrix) (A : csr) (radius : Q) (i : nat)
      (seed : point) (o : option Row.t) :
  seed_record X A radius i seed = Ok o -> exists Ai, getrow A i = Ok Ai.
Proof.
  destruct o as [row |]; intros H.
  - apply seed_record_some in H. destruct H as (Ai & _ & HA & _). eauto.
  - apply seed_record_none in H. destruct H as (Ai & HA & _). eauto.
Qed.

Lemma seed_records_each (X : option matrix) (A : csr) (radius : Q)
      (seeds : list point) (rows : list Row.t) (i : nat) (seed : point) :
  seed_records X A radius 0 seeds = Ok rows ->
  nth_error seeds i = Some seed ->
  exists o, seed_record X A radius i seed = Ok o.
Proof.
  intros H Hnth. apply seed_records_emitted in H. destruct H as [_ Hall].
  rewrite Forall_forall in Hall.
  apply (Hall (i, seed)). apply in_enumerate_from.
  rewrite Nat.sub_0_r. split; [lia | exact Hnth].
Qed.

(** C3.  When the loop completes, seed [i] has a row in the frame if and
    only if its matched set [A[i].nonzero()[1]] is not empty; every row of
    the seed carries that size, at least 1, as its [voxel_count]; and for an
    empty matched set the iteration ends normally without a row. *)
Theorem record_iff_voxel_matched (X : option matrix) (A : csr) (radius : Q)
        (seeds : list point) (rows : list Row.t) (i : nat) (seed : point) :
  seed_records X A radius 0 seeds = Ok rows ->
  nth_error seeds i = Some seed ->
  exists Ai,
    getrow A i = Ok Ai
    /\ ((exists row, In row rows /\ Row.seed_id row = i)
        <-> 1 <= length (nonzero_cols Ai))
    /\ (forall row, In row rows -> Row.seed_id row = i ->
                    Row.voxel_count row = length (nonzero_cols Ai)
                    /\ 1 <= Row.voxel_count row)
    /\ (nonzero_cols Ai = [] ->
        seed_record X A radius i seed = Ok None
        /\ forall row, In row rows -> Row.seed_id row <> i).
Proof.
  intros Hrows Hnth.
  destruct (seed_records_each _ _ _ _ _ _ _ Hrows Hnth) as [o Ho].
  destruct (seed_record_getrow _ _ _ _ _ _ Ho) as [Ai HA].
  exists Ai. split; [exact HA |].
  assert (Hrow : forall row, In row rows -> Row.seed_id row = i ->
                 nonzero_cols Ai <> []
                 /\ Row.voxel_count row = length (nonzero_cols Ai)).
  { intros row Hin Hid.
    apply (in_seed_records X A radius seeds rows row Hrows) in Hin.
    destruct Hin as (seed' & _ & Hrec). rewrite Hid in Hrec.
    apply seed_record_some in Hrec.
    destruct Hrec as (Ai' & st & HA' & Hne & _ & ->).
    rewrite HA in HA'. inversion HA'; subst Ai'. auto. }
  split; [| split].
  - split.
    + intros (row & Hin & Hid). destruct (Hrow row Hin Hid) as [Hne _].
      destruct (nonzero_cols Ai); [contradiction Hne; reflexivity | simpl; lia].
    + intros Hlen. destruct o as [row |].
      * exists row. pose proof Ho as Ho'. apply seed_record_some in Ho'.
        destruct Ho' as (Ai' & st & _ & _ & _ & Heq).
        assert (Hid : Row.seed_id row = i) by (rewrite Heq; reflexivity).
        split; [| exact Hid].
        apply (in_seed_records X A radius seeds rows row Hrows).
        exists seed. rewrite Hid. auto.
      * apply seed_record_none in Ho. destruct Ho as (Ai' & HA' & Hnil).
        rewrite HA in HA'. inversion HA'; subst Ai'.
        rewrite Hnil in Hlen. simpl in Hlen. lia.
  - intros row Hin Hid. destruct (Hrow row Hin Hid) as [Hne Hvc].
    split; [exact Hvc |]. rewrite Hvc.
    destruct (nonzero_cols Ai); [contradiction Hne; reflexivity | simpl; lia].
  - intros Hnil. split.
    + apply seed_record_none. exists Ai. auto.
    + intros row Hin Hid. destruct (Hrow row Hin Hid) as [Hne _]. contradiction.
Qed.

Lemma record_iff_voxel_matched_witness :
  exists Ai,
    getrow Sim.A0 1 = Ok Ai
    /\ ((exists row, In row Sim.rows0 /\ Row.seed_id row = 1)
        <-> 1 <= length (nonzero_cols Ai))
    /\ (forall row, In row Sim.rows0 -> Row.seed_id row = 1 ->
                    Row.voxel_count row = length (nonzero_cols Ai)
                    /\ 1 <= Row.voxel_count row)
    /\ (nonzero_cols Ai = [] ->
        seed_record Sim.X0 Sim.A0 2 1 (40, 40, 40)%Q = Ok None
        /\ forall row, In row Sim.rows0 -> Row.seed_id row <> 1).
Proof.
  apply (record_iff_voxel_matched Sim.X0 Sim.A0 2 Sim.seeds0 Sim.rows0 1 (40, 40, 40)%Q).
  - vm_compute. reflexivity.
  - reflexivity.
Defined.

(** ** Statistics *)

Section Statistics.










End Statistics.



(** The statistics of the first row of the example: seven matched voxels
    with intensities 4, 10, 12, 13, 14, 16 and 22. *)
Example example_statistics :
  Row.voxel_count Sim.row0 = 7
  /\ Row.max_value Sim.row0 = fin 22
  /\ Row.min_value Sim.row0 = fin 4
  /\ (exists m, Row.mean_value Sim.row0 = fin m /\ (m == 13)%Q)
  /\ (exists v, Row.std_value Sim.row0 = fsqrt v /\ (v == 26)%Q).
Proof.
  repeat split; try (vm_compute; reflexivity).
  - eexists. split; [vm_compute; reflexivity | reflexivity].
  - eexists. split; [vm_compute; reflexivity | reflexivity].
Qed.

(** ** A mask without active voxel *)





(** ** The radius *)

Lemma Qsquare_le (a b : Q) : (0 <= a)%Q -> (a <= b)%Q -> (a * a <= b * b)%Q.
Proof.
  intros H0 Hab.
  assert (H0b : (0 <= b)%Q) by (eapply Qle_trans; eassumption).
  apply Qle_trans with (b * a)%Q.
  - apply Qmult_le_compat_r; assumption.
  - setoid_replace (b * a)%Q with (a * b)%Q by apply Qmult_comm.
    apply Qmult_le_compat_r; assumption.
Qed.

(** A point within the smaller radius is within the larger one. *)
Lemma within_mono (r1 r2 : Q) (s p : point) :
  (r1 <= r2)%Q -> within r1 s p = true -> within r2 s p = true.
Proof.
  unfold within. intros Hle H.
  apply andb_true_iff in H. destruct H as [H0 Hd].
  apply Qle_bool_iff in H0. apply Qle_bool_iff in Hd.
  apply andb_true_iff. split; apply Qle_bool_iff.
  - eapply Qle_trans; eassumption.
  - eapply Qle_trans; [exact Hd |]. apply Qsquare_le; assumption.
Qed.

Lemma find_all_mono {B} (f g : B -> bool) (l : list B) :
  (forall b, f b = true -> g b = true) ->
  forall i, incl (find_all f l i) (find_all g l i)
            /\ length (find_all f l i) <= length (find_all g l i).
Proof.
  intros Hfg. induction l as [| b l IH]; intros i; simpl.
  - split; [apply incl_refl | lia].
  - destruct (IH (S i)) as [Hincl Hlen].
    destruct (f b) eqn:Hf.
    + rewrite (Hfg b Hf). split; [| simpl; lia].
      intros c [<- | Hc]; [left; reflexivity | right; apply Hincl, Hc].
    + destruct (g b); split; simpl; try lia.
      * intros c Hc. right. apply Hincl, Hc.
      * exact Hincl.
Qed.

Lemma graph_row_mono (r1 r2 : Q) (pts : list point) (s : point) :
  (r1 <= r2)%Q ->
  incl (nonzero_cols (graph_row (mkNN r1 pts) s)) (nonzero_cols (graph_row (mkNN r2 pts) s))
  /\ length (nonzero_cols (graph_row (mkNN r1 pts) s))
     <= length (nonzero_cols (graph_row (mkNN r2 pts) s)).
Proof.
  intros Hle. rewrite !nonzero_cols_graph_row. cbn [nn_radius nn_fit_X].
  apply find_all_mono. intros p. apply within_mono. exact Hle.
Qed.

Lemma getrow_map_inv {B} (f : B -> list (nat * Q)) (l : list B) (i : nat)
      (row : list (nat * Q)) :
  getrow (map f l) i = Ok row -> exists b, nth_error l i = Some b /\ row = f b.
Proof.
  unfold getrow. rewrite nth_error_map.
  destruct (nth_error l i) as [b |]; simpl; intros H; inversion H. eauto.
Qed.

(** A seed position beyond the seeds has no row. *)
Lemma reported_outside (X : option matrix) (A : csr) (radius : Q)
      (seeds : list point) (rows : list Row.t) (i : nat) :
  seed_records X A radius 0 seeds = Ok rows ->
  nth_error seeds i = None -> reported rows i = 0.
Proof.
  intros Hrows Hnone. unfold reported.
  destruct (find _ rows) as [row |] eqn:Hf; [| reflexivity].
  apply find_some in Hf. destruct Hf as [Hin Hid].
  apply Nat.eqb_eq in Hid.
  apply (in_seed_records X A radius seeds rows row Hrows) in Hin.
  destruct Hin as (seed & Hnth & _). rewrite Hid in Hnth. congruence.
Qed.

(** C7.  Through [extract_buffer_zone_data], the count reported for a seed
    at one radius never exceeds the count reported at another (no row is
    ever reported).  In the helper, for radii [r1 <= r2]: if it returns at
    [r1] it returns at [r2] with the same masked data, the matched set of
    every seed at [r1] is included in, and no larger than, its matched set at
    [r2], and the counts reported by the completed loops (0 for a seed
    without row) are ordered the same way. *)
Theorem voxel_count_monotone_in_radius (w : World) :
  (forall self coordinates_file image_file o1 o2 i,
      reported (fst (extract_buffer_zone_data w self coordinates_file image_file o1)) i
      <= reported (fst (extract_buffer_zone_data w self coordinates_file image_file o2)) i)
  /\ (forall seeds niimg ao mask_img r1 r2 X A1,
         (r1 <= r2)%Q ->
         _apply_mask_and_get_affinity w seeds niimg r1 ao mask_img = Ok (X, A1) ->
         exists A2,
           _apply_mask_and_get_affinity w seeds niimg r2 ao mask_img = Ok (X, A2)
           /\ (forall i Ai1,
                  getrow A1 i = Ok Ai1 ->
                  exists Ai2,
                    getrow A2 i = Ok Ai2
                    /\ incl (nonzero_cols Ai1) (nonzero_cols Ai2)
                    /\ length (nonzero_cols Ai1) <= length (nonzero_cols Ai2))
           /\ (forall rows1 rows2,
                  seed_records X A1 r1 0 seeds = Ok rows1 ->
                  seed_records X A2 r2 0 seeds = Ok rows2 ->
                  forall i, reported rows1 i <= reported rows2 i)).
Proof.
  split.
  { intros. rewrite !extract_rows_nil. apply Nat.le_refl. }
  intros seeds niimg ao mask_img r1 r2 X A1 Hle H1.
  destruct (helper_ok _ _ _ _ _ _ _ _ H1) as (mask & aff & _ & Hload & Hne & Hseeds & HA1).
  set (pts := world_points aff (active_voxels mask)) in *.
  exists (map (graph_row (mkNN r2 pts)) seeds).
  split; [apply (helper_returns w seeds niimg r2 ao mask_img _ _ _ Hload Hne Hseeds) |].
  split.
  - intros i Ai1 HAi1. rewrite HA1 in HAi1.
    apply getrow_map_inv in HAi1. destruct HAi1 as (seed & Hnth & ->).
    exists (graph_row (mkNN r2 pts) seed).
    split; [apply getrow_map; exact Hnth | apply graph_row_mono; exact Hle].
  - intros rows1 rows2 Hrows1 Hrows2 i.
    destruct (nth_error seeds i) as [seed |] eqn:Hnth.
    + assert (Hnth0 : nth_error seeds (i - 0) = Some seed)
        by (rewrite Nat.sub_0_r; exact Hnth).
      rewrite (reported_is_matched X A1 r1 seeds 0 i rows1 seed
                 (graph_row (mkNN r1 pts) seed) Hrows1 (Nat.le_0_l i) Hnth0)
        by (rewrite HA1; apply getrow_map; exact Hnth).
      rewrite (reported_is_matched X _ r2 seeds 0 i rows2 seed
                 (graph_row (mkNN r2 pts) seed) Hrows2 (Nat.le_0_l i) Hnth0)
        by (apply getrow_map; exact Hnth).
      apply graph_row_mono. exact Hle.
    + rewrite (reported_outside X A1 r1 seeds rows1 i Hrows1 Hnth). lia.
Qed.

Lemma voxel_count_monotone_in_radius_witness :
  exists A2,
    _apply_mask_and_get_affinity Sim.w0 Sim.seeds0 (Some Sim.ramp_img) 3 false
      (Some Sim.cube_mask) = Ok (Sim.X0, A2)
    /\ (forall i Ai1,
           getrow Sim.A0 i = Ok Ai1 ->
           exists Ai2,
             getrow A2 i = Ok Ai2
             /\ incl (nonzero_cols Ai1) (nonzero_cols Ai2)
             /\ length (nonzero_cols Ai1) <= length (nonzero_cols Ai2))
    /\ (forall rows1 rows2,
           seed_records Sim.X0 Sim.A0 2 0 Sim.seeds0 = Ok rows1 ->
           seed_records Sim.X0 A2 3 0 Sim.seeds0 = Ok rows2 ->
           forall i, reported rows1 i <= reported rows2 i).
Proof.
  apply (proj2 (voxel_count_monotone_in_radius Sim.w0) Sim.seeds0 (Some Sim.ramp_img) false
           (Some Sim.cube_mask) 2%Q 3%Q Sim.X0 Sim.A0).
  - vm_compute. discriminate.
  - vm_compute. reflexivity.
Defined.

(** ** The flag [allow_overlap] *)

Lemma fold_left_ext {S B} (f g : S -> B -> S) (l : list B) (s : S) :
  (forall s b, f s b = g s b) -> fold_left f l s = fold_left g l s.
Proof.
  intros H. revert s. induction l as [| b l IH]; intros s; simpl; [reflexivity |].
  rewrite H. apply IH.
Qed.

Lemma extract_ext (w : World) (self1 self2 : BufferZoneAnalyzer)
      (coordinates_file image_file : string) (radius : option Q) :
  default_radius self1 = default_radius self2 ->
  extract_buffer_zone_data w self1 coordinates_file image_file radius
  = extract_buffer_zone_data w self2 coordinates_file image_file radius.
Proof.
  intros H. unfold extract_buffer_zone_data. rewrite H. reflexivity.
Qed.

Lemma process_ext (w : World) (self1 self2 : BufferZoneAnalyzer) :
  coordinates_dir self1 = coordinates_dir self2 ->
  images_dir self1 = images_dir self2 ->
  bz_config self1 = bz_config self2 ->
  default_radius self1 = default_radius self2 ->
  process_coordinate_files w self1 = process_coordinate_files w self2.
Proof.
  intros Hc Hi Hb Hd. unfold process_coordinate_files.
  rewrite Hc, Hi.
  destruct (get_file_list w (coordinates_dir self2) (Some [".csv"])) as [| f fs];
    [reflexivity |].
  destruct (get_file_list w (images_dir self2) (Some [".nii.gz"; ".nii"])) as [| im ims];
    [reflexivity |].
  assert (Hopts : radius_options_of self1 = radius_options_of self2)
    by (unfold radius_options_of; rewrite Hb, Hd; reflexivity).
  rewrite Hopts.
  rewrite (fold_left_ext (file_step w self1 im (radius_options_of self2))
                         (file_step w self2 im (radius_options_of self2))).
  - reflexivity.
  - intros st cf. unfold file_step.
    destruct (extract_subject_id (basename cf)); [| reflexivity].
    apply fold_left_ext. intros st' r. unfold radius_step.
    rewrite (extract_ext w self1 self2 cf im r Hd). reflexivity.
Qed.

(** C6.  The constructor stores the flag [allow_overlap] of the
    configuration; the helper returns the same whatever flag it is passed;
    two configurations that differ in nothing but [allow_overlap] give the
    same frames and the same final table; and the row of the graph for one
    seed is what the helper computes for that seed alone. *)
Theorem allow_overlap_is_never_consulted (w : World) :
  (forall c b, allow_overlap (init w (set_allow_overlap c (Some b))) = b)
  /\ (forall seeds niimg r ao1 ao2 mask_img,
      _apply_mask_and_get_affinity w seeds niimg r ao1 mask_img
      = _apply_mask_and_get_affinity w seeds niimg r ao2 mask_img)
  /\ (forall c1 c2,
         same_except_allow_overlap c1 c2 ->
         process_coordinate_files w (init w c1) = process_coordinate_files w (init w c2)
         /\ forall coordinates_file image_file radius,
              extract_buffer_zone_data w (init w c1) coordinates_file image_file radius
              = extract_buffer_zone_data w (init w c2) coordinates_file image_file radius)
  /\ (forall seeds niimg r ao mask_img X A i seed,
         _apply_mask_and_get_affinity w seeds niimg r ao mask_img = Ok (X, A) ->
         nth_error seeds i = Some seed ->
         exists Ai,
           getrow A i = Ok Ai
           /\ _apply_mask_and_get_affinity w [seed] niimg r ao mask_img = Ok (X, [Ai])).
Proof.
  split; [reflexivity |]. split; [reflexivity |]. split.
  - intros c1 c2 (Hin & Hout & Hrad).
    assert (Hd : default_radius (init w c1) = default_radius (init w c2)).
    { unfold default_radius_setting in Hrad. unfold init. cbn [default_radius].
      destruct (get_buffer_zone c1), (get_buffer_zone c2);
        cbn [get_default_radius] in *;
        first [rewrite Hrad; reflexivity | rewrite <- Hrad; reflexivity | reflexivity]. }
    split.
    + apply process_ext; try exact Hd; unfold init; cbn; rewrite ?Hin; reflexivity.
    + intros. apply extract_ext. exact Hd.
  - intros seeds niimg r ao mask_img X A i seed H Hnth.
    destruct (helper_ok _ _ _ _ _ _ _ _ H) as (mask & aff & _ & Hload & Hne & _ & HA).
    exists (graph_row (mkNN r (world_points aff (active_voxels mask))) seed).
    split; [rewrite HA; apply getrow_map; exact Hnth |].
    rewrite (helper_returns w [seed] niimg r ao mask_img _ _ _ Hload Hne) by discriminate.
    reflexivity.
Qed.

Lemma allow_overlap_is_never_consulted_witness :
  process_coordinate_files Sim.w0 (init Sim.w0 (set_allow_overlap Sim.cfg (Some true)))
  = process_coordinate_files Sim.w0 (init Sim.w0 (set_allow_overlap Sim.cfg (Some false)))
  /\ forall coordinates_file image_file radius,
       extract_buffer_zone_data Sim.w0 (init Sim.w0 (set_allow_overlap Sim.cfg (Some true)))
         coordinates_file image_file radius
       = extract_buffer_zone_data Sim.w0
           (init Sim.w0 (set_allow_overlap Sim.cfg (Some false)))
           coordinates_file image_file radius.
Proof.
  apply (proj1 (proj2 (proj2 (allow_overlap_is_never_consulted Sim.w0)))).
  repeat split.
Defined.

(** ** The two loops of [process_coordinate_files] *)

Section Orchestrator.

Variables (w : World) (self : BufferZoneAnalyzer).

Lemma df_empty_with_subject_id (df : list Row.t) (sid : string) :
  df_empty (with_subject_id df sid) = df_empty df.
Proof. destruct df; reflexivity. Qed.

Lemma radius_step_fold (coord_file default_image sid : string) (rs : list (option Q)) :
  forall st : acc,
    fold_left (radius_step w self coord_file default_image sid) rs st
    = (fst st ++ filter (fun df => negb (df_empty df))
                   (map (fun radius =>
                           with_subject_id
                             (fst (extract_buffer_zone_data w self coord_file
                                     default_image radius)) sid) rs),
       snd st ++ flat_map (fun radius =>
                             snd (extract_buffer_zone_data w self coord_file
                                    default_image radius)) rs).
Proof.
  induction rs as [| r rs IH]; intros [res lg].
  - simpl. rewrite !app_nil_r. reflexivity.
  - cbn [fold_left]. rewrite IH. cbn [map filter flat_map]. unfold radius_step.
    destruct (extract_buffer_zone_data w self coord_file default_image r) as [df l].
    cbn [fst snd]. rewrite df_empty_with_subject_id.
    destruct (df_empty df); cbn [negb fst snd]; rewrite <- ?app_assoc; reflexivity.
Qed.

Lemma file_step_once (default_image : string) (rs : list (option Q)) (f : string)
      (st : acc) :
  file_step w self default_image rs st f
  = (fst st ++ frames_of_file w self default_image rs f,
     snd st ++ log_of_file w self default_image rs f).
Proof.
  unfold file_step, frames_of_file, log_of_file.
  destruct (extract_subject_id (basename f)) as [sid |].
  - apply radius_step_fold.
  - rewrite !app_nil_r. destruct st; reflexivity.
Qed.

Lemma file_step_fold (default_image : string) (rs : list (option Q)) (files : list string) :
  forall st : acc,
    fold_left (file_step w self default_image rs) files st
    = (fst st ++ flat_map (frames_of_file w self default_image rs) files,
       snd st ++ flat_map (log_of_file w self default_image rs) files).
Proof.
  induction files as [| f files IH]; intros [res lg].
  - simpl. rewrite !app_nil_r. reflexivity.
  - cbn [fold_left]. rewrite IH, file_step_once. cbn [flat_map fst snd].
    rewrite <- !app_assoc. reflexivity.
Qed.








End Orchestrator.



(** ** Order of the rows *)

Section Order.

Lemma insert_sorted_hd (s : string) (l : list string) (a : string) :
  String.leb a s = true -> HdRel leb_str a l -> HdRel leb_str a (insert_sorted s l).
Proof.
  intros Has Hl. destruct l as [| h t]; simpl.
  - constructor. exact Has.
  - destruct (String.leb s h); constructor; [exact Has |].
    inversion Hl. assumption.
Qed.

Lemma insert_sorted_sorted (s : string) (l : list string) :
  Sorted leb_str l -> Sorted leb_str (insert_sorted s l).
Proof.
  induction l as [| h t IH]; intros Hs; simpl.
  - repeat constructor.
  - destruct (String.leb s h) eqn:Hsh.
    + constructor; [exact Hs | constructor; exact Hsh].
    + inversion Hs; subst. constructor; [apply IH; assumption |].
      apply insert_sorted_hd; [| assumption].
      destruct (String.leb_total s h) as [H | H]; [congruence | exact H].
Qed.

(** [sorted] returns its argument in ascending order. *)
Lemma sorted_is_sorted (l : list string) : Sorted leb_str (sorted l).
Proof.
  induction l as [| s l IH]; simpl; [constructor |].
  apply insert_sorted_sorted. exact IH.
Qed.

Lemma insert_sorted_perm (s : string) (l : list string) :
  Permutation (s :: l) (insert_sorted s l).
Proof.
  induction l as [| h t IH]; simpl; [apply Permutation_refl |].
  destruct (String.leb s h); [apply Permutation_refl |].
  eapply Permutation_trans; [apply perm_swap |].
  apply perm_skip. exact IH.
Qed.

Lemma sorted_perm (l : list string) : Permutation l (sorted l).
Proof.
  induction l as [| s l IH]; simpl; [constructor |].
  eapply Permutation_trans; [apply perm_skip; exact IH |].
  apply insert_sorted_perm.
Qed.

Lemma get_file_list_sorted (w : World) (directory : string)
      (file_patterns : option (list string)) :
  Sorted leb_str (get_file_list w directory file_patterns).
Proof.
  unfold get_file_list. destruct (negb (os_path_exists w directory)).
  - constructor.
  - apply sorted_is_sorted.
Qed.




End Order.



(** In the example the seeds at positions 0 and 3 have equal coordinates
    and both have a row; the far seed at position 1 has none. *)
Example example_seed_ids :
  map Row.seed_id Sim.rows0 = [0; 2; 3]
  /\ get_file_list Sim.w0 "in/coordinates" (Some [".csv"])
     = ["in/coordinates/a_0001.csv"; "in/coordinates/b_0002.csv";
        "in/coordinates/c_0003.csv"].
Proof. split; vm_compute; reflexivity. Qed.

(** The one test of the repository on [extract_subject_id]. *)
Example test_extract_subject_id : extract_subject_id "6966_coords.csv" = Some "6966".
Proof. reflexivity. Qed.

(** ** A falsy radius *)






(** ** Completion of the helper and of the loop *)

Section Completion.








End Completion.



(* ================================================================= *)
(** * Further properties *)

(** ** Strings and paths *)

Section StringFacts.

Lemma append_nil_r (s : string) : (s ++ "")%string = s.
Proof. induction s as [| c s IH]; simpl; [reflexivity | rewrite IH; reflexivity]. Qed.

Lemma append_assoc (a b c : string) : ((a ++ b) ++ c)%string = (a ++ (b ++ c))%string.
Proof. induction a as [| x a IH]; simpl; [reflexivity | rewrite IH; reflexivity]. Qed.

Lemma length_append (a b : string) :
  String.length (a ++ b) = String.length a + String.length b.
Proof. induction a as [| x a IH]; simpl; [reflexivity | rewrite IH; reflexivity]. Qed.

Lemma substring_all (s : string) : substring 0 (String.length s) s = s.
Proof. induction s as [| c s IH]; simpl; [reflexivity | rewrite IH; reflexivity]. Qed.

Lemma substring_prefix (s t : string) : substring 0 (String.length s) (s ++ t) = s.
Proof.
  induction s as [| c s IH]; simpl.
  - destruct t; reflexivity.
  - rewrite IH. reflexivity.
Qed.

Lemma substring_skip (pre s : string) (m : nat) :
  substring (String.length pre) m (pre ++ s) = substring 0 m s.
Proof. induction pre as [| c pre IH]; simpl; [reflexivity | exact IH]. Qed.

Lemma substring_split (k : nat) :
  forall (s : string) (m : nat),
    k + m = String.length s -> s = (substring 0 k s ++ substring k m s)%string.
Proof.
  induction k as [| k IH]; intros s m H.
  - simpl in H. subst m. rewrite substring_all.
    destruct s; reflexivity.
  - destruct s as [| c s]; [discriminate H |].
    simpl in H. injection H as H. simpl. f_equal. apply IH. exact H.
Qed.

(** [s.endswith(suffix)] holds exactly when [s] is something followed by
    the suffix. *)
Lemma endswith_iff (s suffix : string) :
  endswith s suffix = true <-> exists pre, s = (pre ++ suffix)%string.
Proof.
  unfold endswith. split.
  - intros H. apply andb_true_iff in H. destruct H as [Hle Heq].
    apply Nat.leb_le in Hle. apply String.eqb_eq in Heq.
    exists (substring 0 (String.length s - String.length suffix) s).
    pose proof (substring_split (String.length s - String.length suffix) s
                  (String.length suffix)) as Hs.
    rewrite Heq in Hs. apply Hs. lia.
  - intros [pre ->]. rewrite length_append.
    replace (String.length pre + String.length suffix - String.length suffix)
      with (String.length pre) by lia.
    rewrite substring_skip, substring_all, String.eqb_refl.
    rewrite andb_true_r. apply Nat.leb_le. lia.
Qed.

Lemma basename_from_no_slash (f : string) :
  forall acc, no_slash f = true -> basename_from acc f = (acc ++ f)%string.
Proof.
  induction f as [| c f IH]; intros acc H; simpl.
  - rewrite append_nil_r. reflexivity.
  - unfold no_slash in H. simpl in H. apply andb_true_iff in H. destruct H as [Hc Hf].
    destruct (Ascii.eqb c "/"); [discriminate Hc |].
    rewrite (IH _ Hf), append_assoc. reflexivity.
Qed.

Lemma basename_from_after_slash (a f : string) :
  forall acc, basename_from acc (a ++ String "/" f) = basename_from "" f.
Proof.
  induction a as [| c a IH]; intros acc; simpl; [reflexivity |].
  destruct (Ascii.eqb c "/"); apply IH.
Qed.

Lemma no_slash_not_absolute (f : string) : no_slash f = true -> startswith f "/" = false.
Proof.
  destruct f as [| c f]; [reflexivity |].
  unfold no_slash, startswith. cbn [string_forall prefix]. intros H.
  apply andb_true_iff in H. destruct H as [Hc _].
  destruct (ascii_dec "/" c) as [<- | Hne]; [| reflexivity].
  rewrite Ascii.eqb_refl in Hc. discriminate Hc.
Qed.

(** The base name of a directory joined with a name is the name. *)
Lemma basename_path_join (directory file : string) :
  no_slash file = true -> basename (path_join directory file) = file.
Proof.
  intros H. unfold path_join, basename.
  rewrite (no_slash_not_absolute file H).
  destruct (String.eqb directory "") eqn:Hd; cbn [orb].
  - apply String.eqb_eq in Hd. subst directory. simpl.
    rewrite (basename_from_no_slash file "" H). reflexivity.
  - destruct (endswith directory "/") eqn:He.
    + apply endswith_iff in He. destruct He as [pre ->].
      rewrite append_assoc. simpl.
      rewrite basename_from_after_slash. apply (basename_from_no_slash file "" H).
    + simpl. rewrite basename_from_after_slash.
      apply (basename_from_no_slash file "" H).
Qed.

End StringFacts.

(** ** [get_file_list] *)

Section FileList.

Variable w : World.

(** What one directory entry contributes to the list. *)
Lemma in_sorted (l : list string) (p : string) : In p (sorted l) <-> In p l.
Proof.
  split; intros H.
  - eapply Permutation_in; [apply Permutation_sym, sorted_perm | exact H].
  - eapply Permutation_in; [apply sorted_perm | exact H].
Qed.

Lemma existsb_endswith (file : string) (patterns : list string) :
  existsb (endswith file) patterns = true
  <-> exists pattern pre, In pattern patterns /\ file = (pre ++ pattern)%string.
Proof.
  rewrite existsb_exists. split.
  - intros (pattern & Hin & He). apply endswith_iff in He. destruct He as [pre ->].
    exists pattern, pre. auto.
  - intros (pattern & pre & Hin & ->). exists pattern. split; [exact Hin |].
    apply endswith_iff. exists pre. reflexivity.
Qed.

End FileList.

(** Membership in the list of [get_file_list]. *)
Lemma in_get_file_list (w : World) (directory : string)
      (file_patterns : option (list string)) (p : string) :
  In p (get_file_list w directory file_patterns)
  <-> os_path_exists w directory = true
      /\ exists file,
           In file (os_listdir w directory)
           /\ p = path_join directory file
           /\ os_path_isfile w p = true
           /\ match file_patterns with
              | None => True
              | Some patterns =>
                  exists pattern pre,
                    In pattern patterns /\ file = (pre ++ pattern)%string
              end.
Proof.
  unfold get_file_list.
  destruct (os_path_exists w directory); cbn [negb].
  - rewrite in_sorted, in_flat_map. split.
    + intros (file & Hin & Hp). split; [reflexivity |]. exists file.
      destruct (os_path_isfile w (path_join directory file)) eqn:Hf;
        [| contradiction Hp].
      destruct file_patterns as [patterns |].
      * destruct (existsb (endswith file) patterns) eqn:He; [| contradiction Hp].
        destruct Hp as [<- | []]. repeat split; auto.
        apply existsb_endswith. exact He.
      * destruct Hp as [<- | []]. repeat split; auto.
    + intros (_ & file & Hin & -> & Hf & Hpat). exists file. split; [exact Hin |].
      rewrite Hf. destruct file_patterns as [patterns |].
      * apply existsb_endswith in Hpat. rewrite Hpat. left. reflexivity.
      * left. reflexivity.
  - split; [contradiction | intros [H _]; discriminate H].
Qed.

(** X2.  [get_file_list] returns exactly the paths [directory/file] of the
    entries of an existing directory that are regular files and, when
    patterns are given, end with one of them; it returns them in ascending
    order; a directory that does not exist gives the empty list, and so does
    an empty list of patterns. *)
Theorem get_file_list_lists_matching_files (w : World) (directory : string)
        (file_patterns : option (list string)) :
  (forall p,
      In p (get_file_list w directory file_patterns)
      <-> os_path_exists w directory = true
          /\ exists file,
               In file (os_listdir w directory)
               /\ p = path_join directory file
               /\ os_path_isfile w p = true
               /\ match file_patterns with
                  | None => True
                  | Some patterns =>
                      exists pattern pre,
                        In pattern patterns /\ file = (pre ++ pattern)%string
                  end)
  /\ Sorted leb_str (get_file_list w directory file_patterns)
  /\ (os_path_exists w directory = false ->
      get_file_list w directory file_patterns = [])
  /\ get_file_list w directory (Some []) = [].
Proof.
  split; [intros p; apply in_get_file_list |].
  split; [apply get_file_list_sorted | split].
  - intros H. unfold get_file_list. rewrite H. reflexivity.
  - unfold get_file_list. destruct (os_path_exists w directory); cbn [negb];
      [| reflexivity].
    induction (os_listdir w directory) as [| file l IH]; [reflexivity |].
    cbn [flat_map existsb]. destruct (os_path_isfile w (path_join directory file)); exact IH.
Qed.

(** X3.  When the names a directory lists hold no slash, every path of
    [get_file_list] has one of these names as its base name and is the
    directory joined with that name, so that [basename] undoes [path_join]:
    the subject id is looked for in the file name alone. *)
Theorem listed_path_basename (w : World) (directory : string)
        (file_patterns : option (list string)) (p : string) :
  (forall file, In file (os_listdir w directory) -> no_slash file = true) ->
  In p (get_file_list w directory file_patterns) ->
  In (basename p) (os_listdir w directory)
  /\ p = path_join directory (basename p).
Proof.
  intros Hnames Hin.
  apply in_get_file_list in Hin.
  destruct Hin as (_ & file & Hfile & -> & _ & _).
  pose proof (Hnames file Hfile) as Hns.
  rewrite (basename_path_join directory file Hns). auto.
Qed.

Lemma listed_path_basename_witness :
  In (basename "in/coordinates/a_0001.csv") (os_listdir Sim.w0 "in/coordinates")
  /\ "in/coordinates/a_0001.csv"
     = path_join "in/coordinates" (basename "in/coordinates/a_0001.csv").
Proof.
  apply (listed_path_basename Sim.w0 "in/coordinates" (Some [".csv"])
           "in/coordinates/a_0001.csv").
  - intros file Hin. vm_compute in Hin.
    destruct Hin as [<- | [<- | [<- | [<- | []]]]]; reflexivity.
  - vm_compute. left. reflexivity.
Defined.

(** ** [extract_subject_id] *)

Section SubjectId.








End SubjectId.


(** A run of more than four digits gives its first four; digits in
    separate groups of fewer than four give nothing. *)
Example example_subject_ids :
  extract_subject_id "sub-123456_run.csv" = Some "1234"
  /\ extract_subject_id "ab12c345.csv" = None
  /\ extract_subject_id "s01_2024_5678.csv" = Some "2024".
Proof. repeat split. Qed.

(** ** [validate_config] and [validate_dataframe] *)

Section Validation.

Lemma dict_has_true {V} (k : string) (d : list (string * V)) :
  dict_has k d = true <-> exists v, dict_get k d = Some v.
Proof.
  unfold dict_has. destruct (dict_get k d) as [v |]; split; intros H.
  - eauto.
  - reflexivity.
  - discriminate H.
  - destruct H as [v H]. discriminate H.
Qed.

Lemma dict_item_some {V} (k : string) (d : list (string * V)) (v : V) :
  dict_get k d = Some v -> dict_item k d = Ok v.
Proof. unfold dict_item. intros ->. reflexivity. Qed.


Lemma has_column_in (df : DataFrame) (c : string) :
  has_column df c = true <-> In c (columns df).
Proof.
  unfold has_column. rewrite existsb_exists. split.
  - intros (c' & Hin & He). apply String.eqb_eq in He. subst c'. exact Hin.
  - intros H. exists c. split; [exact H | apply String.eqb_refl].
Qed.

Lemma no_missing_columns (df : DataFrame) (l : list string) :
  filter (fun col => negb (has_column df col)) l = []
  <-> forall c, In c l -> In c (columns df).
Proof.
  induction l as [| a l IH]; simpl.
  - split; [intros _ c [] | reflexivity].
  - destruct (has_column df a) eqn:Ha; cbn [negb].
    + rewrite IH. apply has_column_in in Ha. split.
      * intros H c [<- | Hc]; auto.
      * intros H c Hc. apply H. right. exact Hc.
    + split; [discriminate |]. intros H. exfalso.
      assert (Hin : In a (columns df)) by (apply H; left; reflexivity).
      apply has_column_in in Hin. congruence.
Qed.


End Validation.


(** The configuration of the repository's own test, and a level in lower
    case. *)
Example test_config_validation :
  validate_config
    [("pipeline", [("name", "Test"); ("version", "1.0")]);
     ("paths", [("input_dir", "in"); ("output_dir", "out"); ("logs_dir", "out/logs")]);
     ("logging", [("level", "INFO")])] = Ok tt
  /\ validate_config
       [("pipeline", []);
        ("paths", [("input_dir", "in"); ("output_dir", "out"); ("logs_dir", "out/logs")]);
        ("logging", [("level", "warning")])] = Ok tt
  /\ validate_config
       [("pipeline", []);
        ("paths", [("input_dir", "in"); ("output_dir", "out"); ("logs_dir", "out/logs")]);
        ("logging", [("level", "verbose")])]
     = Raise (Raised ValueError "Invalid logging level: VERBOSE").
Proof. repeat split. Qed.

(** X6.  [validate_dataframe] returns [True] exactly for a frame that is
    given, has at least one column and one row, has at least [min_rows]
    rows and holds every required column; so a frame without rows is
    refused also with [min_rows = 0]. *)
Theorem validate_dataframe_accepts_iff (df : option DataFrame)
        (required_columns : option (list string)) (min_rows : Z) :
  validate_dataframe df required_columns min_rows = true
  <-> exists d,
        df = Some d
        /\ columns d <> []
        /\ values d <> []
        /\ (min_rows <= Z.of_nat (length (values d)))%Z
        /\ forall c, In c (match required_columns with Some l => l | None => [] end) ->
                     In c (columns d).
Proof.
  unfold validate_dataframe. destruct df as [d |].
  - unfold frame_empty.
    destruct (columns d) as [| col cols] eqn:Hc.
    + cbn [orb]. split; [discriminate |].
      intros (d' & Hd & Hne & _). inversion Hd; subst d'. congruence.
    + destruct (values d) as [| row rows] eqn:Hv.
      * cbn [orb]. split; [discriminate |].
        intros (d' & Hd & _ & Hne & _). inversion Hd; subst d'. congruence.
      * cbn [orb].
        destruct (Z.of_nat (length (row :: rows)) <? min_rows)%Z eqn:Hmin.
        -- split; [discriminate |].
           intros (d' & Hd & _ & _ & Hle & _). inversion Hd; subst d'.
           rewrite Hv in Hle. apply Z.ltb_lt in Hmin. lia.
        -- apply Z.ltb_ge in Hmin.
           assert (Hreq : match required_columns with
                          | Some (c :: cs) =>
                              match filter (fun col0 => negb (has_column d col0)) (c :: cs) with
                              | [] => true
                              | _ => false
                              end
                          | _ => true
                          end = true
                          <-> forall c,
                                In c (match required_columns with
                                      | Some l => l
                                      | None => []
                                      end) -> In c (columns d)).
           { destruct required_columns as [[| c cs] |].
             - split; [intros _ c [] | reflexivity].
             - rewrite <- no_missing_columns.
               destruct (filter _ (c :: cs)); split; congruence.
             - split; [intros _ c [] | reflexivity]. }
           rewrite Hreq. split.
           ++ intros H. exists d. split; [reflexivity |].
              split; [rewrite Hc; discriminate |].
              split; [rewrite Hv; discriminate |].
              split; [rewrite Hv; exact Hmin | exact H].
           ++ intros (d' & Hd & _ & _ & _ & H). inversion Hd; subst d'. exact H.
  - split; [discriminate |]. intros (d & Hd & _). discriminate Hd.
Qed.

(** The two assertions of the repository's test on [validate_dataframe],
    and an empty frame with [min_rows = 0]. *)
Example test_validate_dataframe :
  validate_dataframe None None 1 = false
  /\ validate_dataframe (Some (mkDataFrame ["A"; "B"] [[1; 2]%Q])) (Some ["A"; "B"]) 1 = true
  /\ validate_dataframe (Some (mkDataFrame ["A"; "B"] [])) None 0 = false.
Proof. repeat split. Qed.

(** The assertions of the repository's test on [safe_divide]. *)
Example test_safe_divide :
  (safe_divide 10 2 0 == 5)%Q /\ safe_divide 10 0 0 = 0%Q.
Proof. split; reflexivity. Qed.

(** ** [process_coordinate_files], [run] and [run_pipeline] *)

Section Pipeline.

Variables (w : World) (self : BufferZoneAnalyzer).




Lemma run_step_count (p : Pipeline) (st : nat * list log_event) (name : string) :
  (forall n step, In (n, step) (pipeline_steps p) ->
                  step = Ok PyNone \/ exists e, step = Raise e) ->
  fst (run_step p st name) = fst st
  /\ exists ev, snd (run_step p st name) = snd st ++ [ev] /\ event_step ev = [name].
Proof.
  intros Hsteps. unfold run_step, dict_item.
  destruct (dict_get name (pipeline_steps p)) as [step |] eqn:Hget.
  - assert (Hin : exists n, In (n, step) (pipeline_steps p)).
    { clear Hsteps. induction (pipeline_steps p) as [| [k v] l IH]; [discriminate Hget |].
      simpl in Hget. destruct (String.eqb name k).
      - inversion Hget; subst. exists k. left. reflexivity.
      - destruct (IH Hget) as [n Hn]. exists n. right. exact Hn. }
    destruct Hin as [n Hin]. destruct (Hsteps n step Hin) as [-> | [e ->]].
    + cbn. split; [reflexivity |]. eexists. split; reflexivity.
    + cbn. split; [reflexivity |]. eexists. split; reflexivity.
  - cbn. split; [reflexivity |]. eexists. split; reflexivity.
Qed.

Lemma run_steps_fold (p : Pipeline) (steps : list string) :
  (forall n step, In (n, step) (pipeline_steps p) ->
                  step = Ok PyNone \/ exists e, step = Raise e) ->
  forall st,
    fst (fold_left (run_step p) steps st) = fst st
    /\ exists evs,
         snd (fold_left (run_step p) steps st) = snd st ++ evs
         /\ flat_map event_step evs = steps.
Proof.
  intros Hsteps. induction steps as [| name steps IH]; intros st.
  - simpl. split; [reflexivity |]. exists []. rewrite app_nil_r. auto.
  - cbn [fold_left].
    destruct (run_step_count p st name Hsteps) as (Hc & ev & Hev & Hname).
    destruct (IH (run_step p st name)) as (Hc' & evs & Hevs & Hnames).
    split; [rewrite Hc'; exact Hc |].
    exists (ev :: evs). split.
    + rewrite Hevs, Hev, <- app_assoc. reflexivity.
    + cbn [flat_map]. rewrite Hname, Hnames. reflexivity.
Qed.

End Pipeline.


(** X8.  [run_pipeline] never returns [True]: every [run] returns [None]
    or raises, so no step is counted as a success.  When all requested steps
    are known, each of them is run, in the order requested, also after a step
    that raised, and each leaves its entry in the error log; when one is
    unknown, nothing is run. *)
Theorem run_pipeline_never_reports_success (w : World) (self : BufferZoneAnalyzer)
        (roi_body var_body cons_body : result unit) (steps : option (list string)) :
  fst (run_pipeline (pipeline_of w self roi_body var_body cons_body) steps) = false
  /\ (forallb (fun s => dict_has s (pipeline_steps
                                      (pipeline_of w self roi_body var_body cons_body)))
              (requested_steps (pipeline_of w self roi_body var_body cons_body) steps)
      = true ->
      flat_map event_step
               (snd (run_pipeline (pipeline_of w self roi_body var_body cons_body) steps))
      = requested_steps (pipeline_of w self roi_body var_body cons_body) steps)
  /\ (forallb (fun s => dict_has s (pipeline_steps
                                      (pipeline_of w self roi_body var_body cons_body)))
              (requested_steps (pipeline_of w self roi_body var_body cons_body) steps)
      = false ->
      exists invalid,
        snd (run_pipeline (pipeline_of w self roi_body var_body cons_body) steps)
        = [InvalidSteps invalid]).
Proof.
  set (p := pipeline_of w self roi_body var_body cons_body).
  assert (Hsteps : forall n step, In (n, step) (pipeline_steps p) ->
                                  step = Ok PyNone \/ exists e, step = Raise e).
  { intros n step Hin. unfold p, pipeline_of, pipeline_steps in Hin.
    cbn [roi_extractor_run buffer_zone_analyzer_run variable_extractor_run
         data_consolidator_run In] in Hin.
    assert (Hc : forall body, component_run body = Ok PyNone
                              \/ exists e, component_run body = Raise e)
      by (intros [[] | e]; simpl; eauto).
    destruct Hin as [H | [H | [H | [H | []]]]]; inversion H; subst; auto. }
  assert (Hne : requested_steps p steps <> []).
  { unfold requested_steps. destruct steps as [[| s l] |]; discriminate. }
  unfold run_pipeline. fold (requested_steps p steps).
  destruct (filter (fun s => negb (dict_has s (pipeline_steps p))) (requested_steps p steps))
    as [| i invalid] eqn:Hinv.
  - destruct (run_steps_fold p (requested_steps p steps) Hsteps (0, []))
      as (Hc & evs & Hevs & Hnames).
    destruct (fold_left (run_step p) (requested_steps p steps) (0, [])) as [count lg].
    cbn [fst snd app] in *. subst count lg.
    split; [| split].
    + destruct (requested_steps p steps); [contradiction Hne; reflexivity | reflexivity].
    + intros _. exact Hnames.
    + intros Hall. exfalso.
      assert (Ht : forallb (fun s => dict_has s (pipeline_steps p)) (requested_steps p steps)
                   = true).
      { apply forallb_forall. intros s Hs.
        destruct (dict_has s (pipeline_steps p)) eqn:Hd; [reflexivity |].
        assert (Hin : In s (filter (fun s => negb (dict_has s (pipeline_steps p)))
                                   (requested_steps p steps)))
          by (apply filter_In; rewrite Hd; auto).
        rewrite Hinv in Hin. contradiction Hin. }
      congruence.
  - cbn [fst snd]. split; [reflexivity |]. split.
    + intros Hall. exfalso.
      assert (Hin : In i (filter (fun s => negb (dict_has s (pipeline_steps p)))
                                 (requested_steps p steps)))
        by (rewrite Hinv; left; reflexivity).
      apply filter_In in Hin. destruct Hin as [Hin Hd].
      rewrite forallb_forall in Hall. rewrite (Hall i Hin) in Hd. discriminate Hd.
    + intros _. eauto.
Qed.

Lemma run_pipeline_never_reports_success_witness :
  flat_map event_step
           (snd (run_pipeline
                   (pipeline_of Sim.w0 (init Sim.w0 Sim.cfg) (Ok tt)
                      (Raise (Raised OtherError "boom")) (Ok tt))
                   (Some ["variable_extraction"; "buffer_zone"])))
  = requested_steps
      (pipeline_of Sim.w0 (init Sim.w0 Sim.cfg) (Ok tt)
         (Raise (Raised OtherError "boom")) (Ok tt))
      (Some ["variable_extraction"; "buffer_zone"]).
Proof.
  apply (proj1 (proj2 (run_pipeline_never_reports_success Sim.w0 (init Sim.w0 Sim.cfg)
                         (Ok tt) (Raise (Raised OtherError "boom")) (Ok tt)
                         (Some ["variable_extraction"; "buffer_zone"])))).
  reflexivity.
Defined.

(** ** [validate_environment] *)

Section Environment.

Variables (path_exists : list string -> string -> bool)
          (makedirs : list string -> string -> outcome unit).

Lemma dict_item_raise {V} (k : string) (d : list (string * V)) (e : exn) :
  dict_item k d = Raise e -> dict_has k d = false /\ exists msg, e = FromLibrary "dict" OtherError msg.
Proof.
  unfold dict_item, dict_has. destruct (dict_get k d); intros H; inversion H.
  split; [reflexivity | eauto].
Qed.

Lemma ensure_dir_raise (config : RawConfig) (created : list string) (key : string) (e : exn) :
  ensure_dir path_exists makedirs config created key = Raise e ->
  exists fn c msg, e = FromLibrary fn c msg.
Proof.
  unfold ensure_dir. intros H.
  raise_cases H; [apply dict_item_raise in H; destruct H as (_ & msg & ->); eauto |].
  raise_cases H; [apply dict_item_raise in H; destruct H as (_ & msg & ->); eauto |].
  destruct (path_exists created a0); [discriminate H |].
  raise_cases H; [apply call_raise in H; destruct H as (c & msg & ->); eauto |].
  discriminate H.
Qed.

Lemma ensure_dir_ok (config : RawConfig) (created created' : list string) (key : string) :
  ensure_dir path_exists makedirs config created key = Ok created' ->
  exists paths, dict_get "paths" config = Some paths /\ dict_has key paths = true.
Proof.
  unfold ensure_dir. intros H.
  apply bind_ok in H. destruct H as (paths & Hp & H).
  apply bind_ok in H. destruct H as (path & Hk & _).
  unfold dict_item in Hp, Hk.
  destruct (dict_get "paths" config) as [ps |] eqn:Hps; [| discriminate Hp].
  inversion Hp; subst ps. exists paths. split; [reflexivity |].
  unfold dict_has. destruct (dict_get key paths); [reflexivity | discriminate Hk].
Qed.

End Environment.

(** What an exception of [validate_config] tells. *)
Lemma validate_config_raise (config : RawConfig) (e : exn) :
  validate_config config = Raise e ->
  (exists section, e = missing_section section /\ dict_has section config = false)
  \/ (exists paths path_key,
         dict_get "paths" config = Some paths
         /\ e = missing_path path_key /\ dict_has path_key paths = false)
  \/ (exists level, e = invalid_level level).
Proof.
  unfold validate_config, required_sections, required_paths.
  cbn [find].
  destruct (dict_has "pipeline" config) eqn:Hpi; cbn [negb];
    [| intros H; inversion H; left; exists "pipeline"; auto].
  destruct (dict_has "paths" config) eqn:Hpa; cbn [negb];
    [| intros H; inversion H; left; exists "paths"; auto].
  destruct (dict_has "logging" config) eqn:Hlo; cbn [negb];
    [| intros H; inversion H; left; exists "logging"; auto].
  apply dict_has_true in Hpa. destruct Hpa as [paths Hpa].
  apply dict_has_true in Hlo. destruct Hlo as [logging Hlo].
  rewrite (dict_item_some "paths" config paths Hpa).
  cbv beta iota delta [bind]. cbn [find].
  destruct (dict_has "input_dir" paths) eqn:Hin; cbn [negb];
    [| intros H; inversion H; right; left; exists paths, "input_dir"; auto].
  destruct (dict_has "output_dir" paths) eqn:Hout; cbn [negb];
    [| intros H; inversion H; right; left; exists paths, "output_dir"; auto].
  destruct (dict_has "logs_dir" paths) eqn:Hlogs; cbn [negb];
    [| intros H; inversion H; right; left; exists paths, "logs_dir"; auto].
  rewrite Hlo, (dict_item_some "logging" config logging Hlo).
  cbv beta iota delta [bind].
  destruct (dict_get "level" logging) as [level |] eqn:Hlev;
    [assert (Hhas : dict_has "level" logging = true)
       by (unfold dict_has; rewrite Hlev; reflexivity)
    | assert (Hhas : dict_has "level" logging = false)
       by (unfold dict_has; rewrite Hlev; reflexivity)];
    rewrite Hhas.
  - rewrite (dict_item_some "level" logging level Hlev). cbv beta iota.
    destruct (existsb (String.eqb (upper level)) logging_levels); intros H;
      [discriminate H | inversion H; right; right; eauto].
  - intros H. discriminate H.
Qed.

Lemma missing_section_inj (s s' : string) : missing_section s = missing_section s' -> s = s'.
Proof. unfold missing_section. simpl. intros H. inversion H. reflexivity. Qed.

Lemma missing_path_inj (k k' : string) : missing_path k = missing_path k' -> k = k'.
Proof. unfold missing_path. simpl. intros H. inversion H. reflexivity. Qed.

Lemma missing_section_not_path (s k : string) : missing_section s <> missing_path k.
Proof. unfold missing_section, missing_path. simpl. intros H. inversion H. Qed.

Lemma invalid_level_not_section (l s : string) : invalid_level l <> missing_section s.
Proof. unfold missing_section, invalid_level. simpl. intros H. inversion H. Qed.

Lemma invalid_level_not_path (l k : string) : invalid_level l <> missing_path k.
Proof. unfold missing_path, invalid_level. simpl. intros H. inversion H. Qed.

(** X9.  [validate_environment] reads [config['paths']['input_dir']] and
    [config['paths']['output_dir']] before it validates: when the section
    paths or one of these two keys is missing it raises the [KeyError] of
    the lookup, and the [ValueError] that [validate_config] has for these
    three cases never comes out of it.  When it returns, the configuration is
    one that [validate_config] accepts. *)
Theorem validate_environment_key_errors
        (path_exists : list string -> string -> bool)
        (makedirs : list string -> string -> outcome unit) (config : RawConfig) :
  (dict_has "paths" config = false ->
   validate_environment path_exists makedirs config
   = Raise (FromLibrary "dict" OtherError "KeyError: paths"))
  /\ (forall paths key,
         dict_get "paths" config = Some paths ->
         In key ["input_dir"; "output_dir"] ->
         dict_has key paths = false ->
         exists fn c msg,
           validate_environment path_exists makedirs config = Raise (FromLibrary fn c msg))
  /\ validate_environment path_exists makedirs config <> Raise (missing_section "paths")
  /\ validate_environment path_exists makedirs config <> Raise (missing_path "input_dir")
  /\ validate_environment path_exists makedirs config <> Raise (missing_path "output_dir")
  /\ (forall created,
         validate_environment path_exists makedirs config = Ok created ->
         validate_config config = Ok tt).
Proof.
  assert (Hnot : forall msg,
             validate_environment path_exists makedirs config = Raise (Raised ValueError msg) ->
             validate_config config = Raise (Raised ValueError msg)
             /\ exists paths, dict_get "paths" config = Some paths
                              /\ dict_has "input_dir" paths = true
                              /\ dict_has "output_dir" paths = true).
  { intros msg H. unfold validate_environment in H.
    raise_cases H;
      [apply ensure_dir_raise in H; destruct H as (fn & c & m & He); discriminate He |].
    raise_cases H;
      [apply ensure_dir_raise in H; destruct H as (fn & c & m & He); discriminate He |].
    apply ensure_dir_ok in Ha, Ha0.
    destruct Ha as (paths & Hp & Hin). destruct Ha0 as (paths' & Hp' & Hout).
    rewrite Hp in Hp'. inversion Hp'; subst paths'.
    raise_cases H; [| discriminate H].
    split; [exact H |]. exists paths. auto. }
  assert (Hkey : forall key,
             In key ["input_dir"; "output_dir"] ->
             validate_environment path_exists makedirs config <> Raise (missing_path key)).
  { intros key Hin H. apply Hnot in H. destruct H as (Hv & paths & Hp & Hi & Ho).
    apply validate_config_raise in Hv.
    destruct Hv as [(s & He & _) | [(paths' & k & Hp' & He & Hk) | (l & He)]].
    - symmetry in He. exact (missing_section_not_path _ _ He).
    - apply missing_path_inj in He. subst k.
      rewrite Hp in Hp'. inversion Hp'; subst paths'.
      destruct Hin as [<- | [<- | []]]; congruence.
    - symmetry in He. exact (invalid_level_not_path _ _ He). }
  split; [| split; [| split; [| split; [| split]]]].
  - intros Hno. unfold validate_environment, ensure_dir, dict_item.
    unfold dict_has in Hno. destruct (dict_get "paths" config); [discriminate Hno |].
    reflexivity.
  - intros paths key Hp Hin Hno.
    unfold validate_environment.
    destruct (ensure_dir path_exists makedirs config [] "input_dir") as [c1 | e1] eqn:H1;
      cbn [bind].
    + destruct (ensure_dir path_exists makedirs config c1 "output_dir") as [c2 | e2] eqn:H2;
        cbn [bind].
      * exfalso. apply ensure_dir_ok in H1, H2.
        destruct H1 as (p1 & Hp1 & Hi). destruct H2 as (p2 & Hp2 & Ho).
        rewrite Hp in Hp1, Hp2. inversion Hp1; subst p1.
        destruct Hin as [<- | [<- | []]]; congruence.
      * destruct (ensure_dir_raise _ _ _ _ _ _ H2) as (fn & c & msg & ->). eauto.
    + destruct (ensure_dir_raise _ _ _ _ _ _ H1) as (fn & c & msg & ->). eauto.
  - intros H. apply Hnot in H. destruct H as (Hv & paths & Hp & _).
    apply validate_config_raise in Hv.
    destruct Hv as [(s & He & Hs) | [(paths' & k & _ & He & _) | (l & He)]].
    + apply missing_section_inj in He. subst s.
      unfold dict_has in Hs. rewrite Hp in Hs. discriminate Hs.
    + exact (missing_section_not_path _ _ He).
    + symmetry in He. exact (invalid_level_not_section _ _ He).
  - apply Hkey. simpl. auto.
  - apply Hkey. simpl. auto.
  - intros created H. unfold validate_environment in H.
    apply bind_ok in H. destruct H as (c1 & _ & H).
    apply bind_ok in H. destruct H as (c2 & _ & H).
    apply bind_ok in H. destruct H as ([] & Hv & _). exact Hv.
Qed.

Lemma validate_environment_key_errors_witness :
  validate_environment (fun _ _ => true) (fun _ _ => inr tt)
    [("pipeline", []); ("logging", [("level", "INFO")])]
  = Raise (FromLibrary "dict" OtherError "KeyError: paths").
Proof.
  apply (proj1 (validate_environment_key_errors (fun _ _ => true) (fun _ _ => inr tt)
                  [("pipeline", []); ("logging", [("level", "INFO")])])).
  reflexivity.
Defined.

(** ** More on the statistics and on the matched sets *)

Section MoreStatistics.







End MoreStatistics.



(** ** Which voxels a seed matches *)

Section MatchedSet.





End MatchedSet.



(** X12.  Seeds at two positions of the coordinate list that hold the same
    point are not merged: when the helper and the loop complete, the two
    positions report the same voxel count, and a row of one is the row of the
    other with its own [seed_id]. *)
Theorem equal_seeds_get_equal_records (w : World) (seeds : list point)
        (niimg : option Niimg) (r : Q) (ao : bool) (mask_img : option Niimg)
        (X : option matrix) (A : csr) (rows : list Row.t) (i j : nat) (seed : point) :
  _apply_mask_and_get_affinity w seeds niimg r ao mask_img = Ok (X, A) ->
  seed_records X A r 0 seeds = Ok rows ->
  nth_error seeds i = Some seed ->
  nth_error seeds j = Some seed ->
  reported rows i = reported rows j
  /\ ((exists ri, In ri rows /\ Row.seed_id ri = i) <->
      (exists rj, In rj rows /\ Row.seed_id rj = j))
  /\ forall ri rj,
       In ri rows -> In rj rows -> Row.seed_id ri = i -> Row.seed_id rj = j ->
       ri = Row.mk i (Row.x rj) (Row.y rj) (Row.z rj) (Row.radius_mm rj)
                   (Row.voxel_count rj) (Row.mean_value rj) (Row.std_value rj)
                   (Row.max_value rj) (Row.min_value rj).
Proof.
  intros Hhelper Hrows Hi Hj.
  destruct (helper_ok _ _ _ _ _ _ _ _ Hhelper) as (mask & aff & _ & _ & _ & _ & HA).
  set (Ai := graph_row (mkNN r (world_points aff (active_voxels mask))) seed).
  assert (Hg : forall k, nth_error seeds k = Some seed -> getrow A k = Ok Ai).
  { intros k Hk. rewrite HA. apply getrow_map. exact Hk. }
  assert (Hrep : forall k, nth_error seeds k = Some seed ->
                           reported rows k = length (nonzero_cols Ai)).
  { intros k Hk.
    apply (reported_is_matched X A r seeds 0 k rows seed Ai Hrows (Nat.le_0_l k));
      [rewrite Nat.sub_0_r; exact Hk | exact (Hg k Hk)]. }
  assert (Hrow : forall k row,
             nth_error seeds k = Some seed -> In row rows -> Row.seed_id row = k ->
             exists st,
               nonzero_cols Ai <> [] /\ stats_of X (nonzero_cols Ai) = Ok st
               /\ row = Row.mk k (fst (fst seed)) (snd (fst seed)) (snd seed) r
                          (length (nonzero_cols Ai))
                          (fst (fst (fst st))) (snd (fst (fst st)))
                          (snd (fst st)) (snd st)).
  { intros k row Hk Hin Hid.
    apply (in_seed_records X A r seeds rows row Hrows) in Hin.
    destruct Hin as (seed' & Hnth & Hrec). rewrite Hid in Hnth, Hrec.
    assert (seed' = seed) by congruence. subst seed'.
    apply seed_record_some in Hrec.
    destruct Hrec as (Ai' & st & HAi & Hne & Hst & Heq).
    rewrite (Hg k Hk) in HAi. inversion HAi; subst Ai'.
    exists st. auto. }
  assert (Hex : forall k l,
             nth_error seeds k = Some seed -> nth_error seeds l = Some seed ->
             (exists rk, In rk rows /\ Row.seed_id rk = k) ->
             exists rl, In rl rows /\ Row.seed_id rl = l).
  { intros k l Hk Hl (rk & Hin & Hid).
    destruct (Hrow k rk Hk Hin Hid) as (st & Hne & Hst & _).
    exists (Row.mk l (fst (fst seed)) (snd (fst seed)) (snd seed) r
                   (length (nonzero_cols Ai))
                   (fst (fst (fst st))) (snd (fst (fst st))) (snd (fst st)) (snd st)).
    split; [| reflexivity].
    apply (in_seed_records X A r seeds rows _ Hrows). cbn [Row.seed_id].
    exists seed. split; [exact Hl |].
    apply seed_record_some. exists Ai, st. auto. }
  split; [rewrite (Hrep i Hi), (Hrep j Hj); reflexivity |].
  split; [split; [apply (Hex i j) | apply (Hex j i)]; assumption |].
  intros ri rj Hri Hrj Hidi Hidj.
  destruct (Hrow i ri Hi Hri Hidi) as (sti & _ & Hsti & ->).
  destruct (Hrow j rj Hj Hrj Hidj) as (stj & _ & Hstj & ->).
  assert (sti = stj) by congruence. subst stj. reflexivity.
Qed.

Lemma equal_seeds_get_equal_records_witness :
  reported Sim.rows0 0 = reported Sim.rows0 3
  /\ ((exists ri, In ri Sim.rows0 /\ Row.seed_id ri = 0) <->
      (exists rj, In rj Sim.rows0 /\ Row.seed_id rj = 3))
  /\ forall ri rj,
       In ri Sim.rows0 -> In rj Sim.rows0 -> Row.seed_id ri = 0 -> Row.seed_id rj = 3 ->
       ri = Row.mk 0 (Row.x rj) (Row.y rj) (Row.z rj) (Row.radius_mm rj)
                   (Row.voxel_count rj) (Row.mean_value rj) (Row.std_value rj)
                   (Row.max_value rj) (Row.min_value rj).
Proof.
  apply (equal_seeds_get_equal_records Sim.w0 Sim.seeds0 (Some Sim.ramp_img) 2 false
           (Some Sim.cube_mask) Sim.X0 Sim.A0 Sim.rows0 0 3 (0, 0, 0)%Q).
  - vm_compute. reflexivity.
  - vm_compute. reflexivity.
  - vm_compute. reflexivity.
  - vm_compute. reflexivity.
Defined.

(** ** The error log of a run *)

Section ErrorLog.
Variable w : World.
Variable self : BufferZoneAnalyzer.

Lemma flat_map_const {B C} (l : list B) (c : C) (f : B -> list C) :
  (forall b, f b = [c]) -> flat_map f l = repeat c (length l).
Proof.
  intros H. induction l as [| b l IH]; [reflexivity |].
  cbn [flat_map length repeat]. rewrite H, IH. reflexivity.
Qed.

Lemma flat_map_nil {B C} (l : list B) (f : B -> list C) :
  (forall b, f b = []) -> flat_map f l = [].
Proof.
  intros H. induction l as [| b l IH]; [reflexivity |].
  cbn [flat_map]. rewrite H, IH. reflexivity.
Qed.

Lemma missing_column (df : DataFrame) :
  forallb (has_column df) required_cols = false ->
  existsb (fun c => negb (has_column df c)) required_cols = true.
Proof.
  cbn [forallb existsb required_cols].
  destruct (has_column df "X"), (has_column df "Y"), (has_column df "Z");
    cbn; intros H; first [reflexivity | discriminate H].
Qed.

Lemma no_missing_column (df : DataFrame) :
  forallb (has_column df) required_cols = true ->
  existsb (fun c => negb (has_column df c)) required_cols = false.
Proof.
  cbn [forallb existsb required_cols].
  destruct (has_column df "X"), (has_column df "Y"), (has_column df "Z");
    cbn; intros H; first [reflexivity | discriminate H].
Qed.

Lemma extract_log_unreadable (f img : string) (radius : option Q)
      (c : exn_class) (msg : string) :
  pd_read_csv w f = inl (c, msg) ->
  snd (extract_buffer_zone_data w self f img radius)
  = [error_line (FromLibrary "read_csv" c msg)].
Proof. intros H. unfold extract_buffer_zone_data. rewrite H. reflexivity. Qed.

Lemma extract_log_missing_column (f img : string) (radius : option Q) (df : DataFrame) :
  pd_read_csv w f = inr df ->
  forallb (has_column df) required_cols = false ->
  snd (extract_buffer_zone_data w self f img radius) = [].
Proof.
  intros H Hc. unfold extract_buffer_zone_data. rewrite H.
  cbn [call bind]. rewrite (missing_column df Hc). reflexivity.
Qed.

Lemma extract_log_image (f img : string) (radius : option Q) (df : DataFrame)
      (c : exn_class) (msg : string) :
  pd_read_csv w f = inr df ->
  forallb (has_column df) required_cols = true ->
  image_load_img w img = inl (c, msg) ->
  snd (extract_buffer_zone_data w self f img radius)
  = [error_line (FromLibrary "load_img" c msg)].
Proof.
  intros H Hc Hi. unfold extract_buffer_zone_data. rewrite H.
  cbn [call bind]. rewrite (no_missing_column df Hc), Hi. reflexivity.
Qed.

Lemma extract_log_no_mask (f img : string) (radius : option Q) (df : DataFrame)
      (im : Niimg) :
  pd_read_csv w f = inr df ->
  forallb (has_column df) required_cols = true ->
  image_load_img w img = inr im ->
  snd (extract_buffer_zone_data w self f img radius)
  = [error_line (Raised ValueError no_input_msg)].
Proof.
  intros H Hc Hi. unfold extract_buffer_zone_data. rewrite H.
  cbn [call bind]. rewrite (no_missing_column df Hc), Hi. reflexivity.
Qed.

End ErrorLog.

(** X13.  The error log of [process_coordinate_files], when an image file
    is listed: the coordinate files are taken in listing order, and each
    contributes, per configured radius, one line.  A file without four
    consecutive digits in its name and a readable file that lacks one of X,
    Y, Z log nothing; an unreadable file logs the reader's error once per
    radius; a valid file logs the image loader's error once per radius when
    the image does not load, and else the missing-mask error of the helper
    once per radius. *)
Theorem error_log_of_a_run (w : World) (self : BufferZoneAnalyzer)
        (img : string) (imgs : list string) :
  get_file_list w (images_dir self) (Some [".nii.gz"; ".nii"]) = img :: imgs ->
  snd (process_coordinate_files w self)
  = flat_map (log_of_file w self img (radius_options_of self))
             (get_file_list w (coordinates_dir self) (Some [".csv"]))
  /\ forall f,
       (extract_subject_id (basename f) = None ->
        log_of_file w self img (radius_options_of self) f = [])
       /\ (forall df,
              pd_read_csv w f = inr df ->
              forallb (has_column df) required_cols = false ->
              log_of_file w self img (radius_options_of self) f = [])
       /\ (forall sid c msg,
              extract_subject_id (basename f) = Some sid ->
              pd_read_csv w f = inl (c, msg) ->
              log_of_file w self img (radius_options_of self) f
              = repeat (error_line (FromLibrary "read_csv" c msg))
                       (length (radius_options_of self)))
       /\ (forall sid df c msg,
              extract_subject_id (basename f) = Some sid ->
              pd_read_csv w f = inr df ->
              forallb (has_column df) required_cols = true ->
              image_load_img w img = inl (c, msg) ->
              log_of_file w self img (radius_options_of self) f
              = repeat (error_line (FromLibrary "load_img" c msg))
                       (length (radius_options_of self)))
       /\ (forall sid df im,
              extract_subject_id (basename f) = Some sid ->
              pd_read_csv w f = inr df ->
              forallb (has_column df) required_cols = true ->
              image_load_img w img = inr im ->
              log_of_file w self img (radius_options_of self) f
              = repeat ("Error extracting buffer zone: " ++ no_input_msg)%string
                       (length (radius_options_of self))).
Proof.
  intros Himg. split.
  - unfold process_coordinate_files. rewrite Himg.
    destruct (get_file_list w (coordinates_dir self) (Some [".csv"])) as [| f fs];
      [reflexivity |].
    rewrite file_step_fold. cbn [fst snd app].
    destruct (flat_map (frames_of_file w self img (radius_options_of self)) (f :: fs));
      reflexivity.
  - intros f. unfold log_of_file. repeat split.
    + intros ->. reflexivity.
    + intros df Hdf Hc. destruct (extract_subject_id (basename f)); [| reflexivity].
      apply flat_map_nil. intros r. apply (extract_log_missing_column w self f img r df Hdf Hc).
    + intros sid c msg -> Hdf. apply flat_map_const. intros r.
      apply extract_log_unreadable. exact Hdf.
    + intros sid df c msg -> Hdf Hc Hi. apply flat_map_const. intros r.
      apply (extract_log_image w self f img r df c msg Hdf Hc Hi).
    + intros sid df im -> Hdf Hc Hi. apply flat_map_const. intros r.
      apply (extract_log_no_mask w self f img r df im Hdf Hc Hi).
Qed.

Lemma error_log_of_a_run_witness :
  snd (process_coordinate_files Sim.w0 (init Sim.w0 Sim.cfg))
  = ["Error extracting buffer zone: Either niimg or mask_img must be provided";
     "Error extracting buffer zone: Either niimg or mask_img must be provided"].
Proof.
  rewrite (proj1 (error_log_of_a_run Sim.w0 (init Sim.w0 Sim.cfg)
                    "in/images/t1.nii.gz" [] eq_refl)).
  vm_compute. reflexivity.
Defined.

(** ** The radius sweep without a YAML file *)

Section DefaultSweep.
Variable w : World.

Lemma extract_log_length (self : BufferZoneAnalyzer) (f img : string) (radius : option Q) :
  length (snd (extract_buffer_zone_data w self f img radius)) <= 1.
Proof.
  unfold extract_buffer_zone_data.
  match goal with
  | |- length (snd (match ?b with Ok _ => _ | Raise _ => _ end)) <= 1 =>
      destruct b as [rows | e]
  end; cbn [snd length]; lia.
Qed.

Lemma flat_map_length_le {B C} (g : B -> list C) (l : list B) :
  (forall b, length (g b) <= 1) -> length (flat_map g l) <= length l.
Proof.
  intros H. induction l as [| b l IH]; [reflexivity |].
  cbn [flat_map length]. rewrite length_app. specialize (H b). lia.
Qed.

Lemma load_bz_config_unusable :
  os_path_exists w "config/buffer_zone_config.yaml" = false
  \/ (exists e, yaml_safe_load w "config/buffer_zone_config.yaml" = inl e) ->
  _load_bz_config w = mkBzYaml None.
Proof.
  unfold _load_bz_config.
  change (path_join "config" "buffer_zone_config.yaml")
    with "config/buffer_zone_config.yaml".
  intros [-> | (e & ->)]; [reflexivity |].
  destruct (os_path_exists w "config/buffer_zone_config.yaml"); reflexivity.
Qed.

End DefaultSweep.

(** X14.  When [config/buffer_zone_config.yaml] does not exist or cannot
    be loaded, the analyzer sweeps the single radius [default_radius] (5.0
    unless the configuration sets it), and a run then logs at most one line
    per listed coordinate file. *)
Theorem unusable_yaml_gives_default_sweep (w : World) (config : Config) :
  os_path_exists w "config/buffer_zone_config.yaml" = false
  \/ (exists e, yaml_safe_load w "config/buffer_zone_config.yaml" = inl e) ->
  radius_options_of (init w config)
  = [Some (match default_radius_setting config with Some r => r | None => 5%Q end)]
  /\ (length (snd (process_coordinate_files w (init w config)))
      <= length (get_file_list w (path_join (paths_input_dir config) "coordinates")
                               (Some [".csv"])))%nat.
Proof.
  intros Hyaml.
  assert (Hopts : radius_options_of (init w config)
                  = [Some (match default_radius_setting config with
                           | Some r => r | None => 5%Q end)]).
  { unfold radius_options_of, init. cbn [bz_config default_radius].
    rewrite (load_bz_config_unusable w Hyaml). cbn [yaml_buffer_zone].
    unfold default_radius_setting.
    destruct (get_buffer_zone config) as [s |]; reflexivity. }
  split; [exact Hopts |].
  unfold process_coordinate_files. rewrite Hopts.
  change (coordinates_dir (init w config))
    with (path_join (paths_input_dir config) "coordinates").
  destruct (get_file_list w (path_join (paths_input_dir config) "coordinates")
                          (Some [".csv"])) as [| f fs]; [cbn; lia |].
  destruct (get_file_list w (images_dir (init w config)) (Some [".nii.gz"; ".nii"]))
    as [| im ims]; [cbn; lia |].
  rewrite file_step_fold. cbn [fst snd app].
  assert (Hlen : forall g r,
             (length (log_of_file w (init w config) im [r] g) <= 1)%nat).
  { intros g r. unfold log_of_file.
    destruct (extract_subject_id (basename g)); [| cbn; lia].
    cbn [flat_map]. rewrite app_nil_r. apply extract_log_length. }
  destruct (flat_map (frames_of_file w (init w config) im
                        [Some (match default_radius_setting config with
                               | Some r => r | None => 5%Q end)]) (f :: fs));
    cbn [snd]; apply flat_map_length_le; intros g; apply Hlen.
Qed.

Lemma unusable_yaml_gives_default_sweep_witness :
  radius_options_of (init Sim.w0 Sim.cfg) = [Some 5%Q]
  /\ (length (snd (process_coordinate_files Sim.w0 (init Sim.w0 Sim.cfg)))
      <= length (get_file_list Sim.w0 (path_join "in" "coordinates") (Some [".csv"])))%nat.
Proof.
  apply (unusable_yaml_gives_default_sweep Sim.w0 Sim.cfg).
  left. vm_compute. reflexivity.
Defined.
